(** * ScrollableTable: a scrollable table that recycles a bounded pool of row nodes

    Shallow embedding of [src/js/scrollable-table.js].

    JavaScript numbers are modelled by rationals ([Q]) where the source
    computes with pixel values (heights, offsets, scroll positions) and by
    [nat] / [Z] where it computes with array indices and node counts.
    The DOM is modelled by an explicit store: the container element [el]
    (its child list, scroll geometry and scroll listeners) and a heap of
    nodes addressed by [NodeId].  The caller's callbacks are opaque:
    [buildRow] returns a node that did not exist before, [updateRow]
    repaints a node, and neither throws nor touches the table; their calls
    are recorded in a call log.  An exception leaves the state as it is at
    the point of the throw ([Throws]); a loop that may not end takes fuel
    and gives [None] when the fuel does not suffice.  The timing output of
    [updateVisibleRows] ([performance.now], [console.log]) and the
    debugging alias [window.st] carry no state of the table and are left
    out. *)

From Stdlib Require Import ZArith QArith Qminmax Lia Lqa.
From stdpp Require Import base list.

Local Open Scope Q_scope.

(** ** Data model *)

Definition NodeId := nat.

(** A DOM node as far as the table touches it: [style.top] (in px). *)
Record DomNode := mkDomNode {
  style_top : option Q
}.

(** The container element [this.el]. *)
Record Element := mkElement {
  children : list NodeId;        (* el.childNodes, in document order *)
  scrollTop : Q;                 (* el.scrollTop *)
  clientHeight : Q;              (* el.clientHeight *)
  style_height : option Q;       (* el.style.height, set by setHeight *)
  inDocument : bool;             (* el still has a parent *)
  scrollListeners : nat          (* listeners registered for 'scroll' *)
}.

(** Calls of the caller-supplied callbacks, oldest first. *)
Inductive Call :=
| BuildRow (rowNdx : nat) (result : NodeId)
| UpdateRow (rowNdx : nat) (node : option NodeId).

Section Model.

(** The caller's row payload and height function.  The height function
    receives the row object, metadata included. *)
Context {Payload : Type}.

Record Row := mkRow {
  payload : Payload;
  __top : Q;                     (* data[i].__top *)
  __node : option NodeId         (* data[i].__node, None for null *)
}.

Variable heightFn : Row -> Q.

Record State := mkState {
  data : list Row;               (* this.data *)
  rowsWithNodes : list nat;      (* this.rowsWithNodes *)
  availableNodes : Z;            (* this.availableNodes *)
  visibleHeight : Q;             (* this.visibleHeight *)
  totalHeight : Q;               (* this.totalHeight *)
  yPosition : Q;                 (* this.yPosition *)
  bottomEl : option NodeId;      (* this.bottomEl *)
  isUpdating : bool;             (* this.isUpdating, undefined = false *)
  lastMidNdx : option nat;       (* this.lastMidNdx, undefined = None *)
  el : Element;                  (* this.el *)
  heap : list DomNode;           (* every node created so far *)
  calls : list Call              (* callback invocations so far *)
}.

(** ** calculateHeights (source lines 157-164) *)

Definition set_top (r : Row) (t : Q) : Row :=
  {| payload := payload r; __top := t; __node := __node r |}.

(** The [for] loop of [calculateHeights]: [total] is [this.totalHeight]. *)
Fixpoint calculateHeights_loop (rows : list Row) (total : Q) : list Row * Q :=
  match rows with
  | [] => ([], total)
  | r :: rs =>
      let r' := set_top r total in
      let '(rs', total') := calculateHeights_loop rs (total + heightFn r') in
      (r' :: rs', total')
  end.

Definition calculateHeights (rows : list Row) : list Row * Q :=
  calculateHeights_loop rows 0.

(** Sum of the heights of a sequence of rows, accumulated left to right. *)
Definition sum_heights_from (start : Q) (rows : list Row) : Q :=
  fold_left (fun acc r => acc + heightFn r) rows start.

Definition sum_heights (rows : list Row) : Q := sum_heights_from 0 rows.

(** ** Field updates *)

Definition set_node (r : Row) (n : option NodeId) : Row :=
  {| payload := payload r; __top := __top r; __node := n |}.

Definition with_data (st : State) (d : list Row) : State :=
  mkState d (rowsWithNodes st) (availableNodes st) (visibleHeight st)
    (totalHeight st) (yPosition st) (bottomEl st) (isUpdating st)
    (lastMidNdx st) (el st) (heap st) (calls st).

Definition with_rowsWithNodes (st : State) (l : list nat) : State :=
  mkState (data st) l (availableNodes st) (visibleHeight st)
    (totalHeight st) (yPosition st) (bottomEl st) (isUpdating st)
    (lastMidNdx st) (el st) (heap st) (calls st).

Definition with_totalHeight (st : State) (t : Q) : State :=
  mkState (data st) (rowsWithNodes st) (availableNodes st) (visibleHeight st)
    t (yPosition st) (bottomEl st) (isUpdating st)
    (lastMidNdx st) (el st) (heap st) (calls st).

Definition with_yPosition (st : State) (y : Q) : State :=
  mkState (data st) (rowsWithNodes st) (availableNodes st) (visibleHeight st)
    (totalHeight st) y (bottomEl st) (isUpdating st)
    (lastMidNdx st) (el st) (heap st) (calls st).

Definition with_bottomEl (st : State) (b : option NodeId) : State :=
  mkState (data st) (rowsWithNodes st) (availableNodes st) (visibleHeight st)
    (totalHeight st) (yPosition st) b (isUpdating st)
    (lastMidNdx st) (el st) (heap st) (calls st).

Definition with_isUpdating (st : State) (b : bool) : State :=
  mkState (data st) (rowsWithNodes st) (availableNodes st) (visibleHeight st)
    (totalHeight st) (yPosition st) (bottomEl st) b
    (lastMidNdx st) (el st) (heap st) (calls st).

Definition with_lastMidNdx (st : State) (m : option nat) : State :=
  mkState (data st) (rowsWithNodes st) (availableNodes st) (visibleHeight st)
    (totalHeight st) (yPosition st) (bottomEl st) (isUpdating st)
    m (el st) (heap st) (calls st).

Definition with_el (st : State) (e : Element) : State :=
  mkState (data st) (rowsWithNodes st) (availableNodes st) (visibleHeight st)
    (totalHeight st) (yPosition st) (bottomEl st) (isUpdating st)
    (lastMidNdx st) e (heap st) (calls st).

Definition with_heap (st : State) (h : list DomNode) : State :=
  mkState (data st) (rowsWithNodes st) (availableNodes st) (visibleHeight st)
    (totalHeight st) (yPosition st) (bottomEl st) (isUpdating st)
    (lastMidNdx st) (el st) h (calls st).

Definition with_calls (st : State) (c : list Call) : State :=
  mkState (data st) (rowsWithNodes st) (availableNodes st) (visibleHeight st)
    (totalHeight st) (yPosition st) (bottomEl st) (isUpdating st)
    (lastMidNdx st) (el st) (heap st) c.

(** [data[i].__node = n] *)
Definition assign_node (i : nat) (n : option NodeId) (st : State) : State :=
  with_data st (alter (fun r => set_node r n) i (data st)).

(** [node.style.top = t + 'px'] *)
Definition set_style_top (nd : NodeId) (t : Q) (st : State) : State :=
  with_heap st (<[nd := mkDomNode (Some t)]> (heap st)).

Definition log_call (c : Call) (st : State) : State :=
  with_calls st (calls st ++ [c]).

(** ** The container element *)

Definition firstChild (e : Element) : option NodeId := head (children e).

(** [el.remove(...)]: the DOM method [remove] of an element takes no
    argument and detaches the element itself from its parent; the
    element's own children stay. *)
Definition remove (e : Element) : Element :=
  mkElement (children e) (scrollTop e) (clientHeight e) (style_height e)
    false (scrollListeners e).

Definition appendChild (e : Element) (n : NodeId) : Element :=
  mkElement (children e ++ [n]) (scrollTop e) (clientHeight e) (style_height e)
    (inDocument e) (scrollListeners e).

(** [el.addEventListener('scroll', f)] with a function object [f] that
    was not registered before. *)
Definition addEventListener (e : Element) : Element :=
  mkElement (children e) (scrollTop e) (clientHeight e) (style_height e)
    (inDocument e) (S (scrollListeners e)).

Definition set_style_height (e : Element) (h : Q) : Element :=
  mkElement (children e) (scrollTop e) (clientHeight e) (Some h)
    (inDocument e) (scrollListeners e).

(** The host scrolls the container to [y]. *)
Definition scrollTo (y : Q) (st : State) : State :=
  with_el st (mkElement (children (el st)) y (clientHeight (el st))
                (style_height (el st)) (inDocument (el st))
                (scrollListeners (el st))).

(** ** setHeight (source lines 165-172) *)

Definition setHeight (st : State) : State :=
  let '(d, t) := calculateHeights (data st) in
  let st := with_totalHeight (with_data st d) t in
  with_el st (set_style_height (el st) (visibleHeight st)).

(** ** reset (source lines 53-85) *)

(** Line 58: [while (this.el.firstChild) { this.el.remove(this.el.firstChild); }].
    [None] when the loop has not finished within [fuel] iterations. *)
Fixpoint clear_loop (fuel : nat) (e : Element) : option Element :=
  match fuel with
  | O => None
  | S fuel' =>
      match firstChild e with
      | None => Some e
      | Some _ => clear_loop fuel' (remove e)
      end
  end.

(** One iteration of the loop of lines 66-72.  [buildRow] is the caller's;
    it returns a node that did not exist before, here the next free heap
    cell. *)
Definition build_one (ndx : nat) (st : State) : State :=
  match data st !! ndx with
  | None => st                       (* not reached: ndx < data.length *)
  | Some row =>
      let newRow := length (heap st) in
      let st := log_call (BuildRow ndx newRow)
                  (with_heap st (heap st ++ [mkDomNode None])) in
      let st := set_style_top newRow (__top row) st in
      let st := with_el st (appendChild (el st) newRow) in
      let st := with_rowsWithNodes st (rowsWithNodes st ++ [ndx]) in
      assign_node ndx (Some newRow) st
  end.

Fixpoint build_loop (count ndx : nat) (st : State) : State :=
  match count with
  | O => st
  | S count' => build_loop count' (S ndx) (build_one ndx st)
  end.

(** Lines 75-79: the node that keeps the scroll height. *)
Definition add_bottomEl (st : State) : State :=
  let b := length (heap st) in
  let st := with_heap st (heap st ++ [mkDomNode None]) in
  let st := with_bottomEl st (Some b) in
  let st := set_style_top b (totalHeight st) st in
  with_el st (appendChild (el st) b).

Definition reset (fuel : nat) (st : State) : option State :=
  let st := with_yPosition st 0 in
  let st := setHeight st in
  match clear_loop fuel (el st) with
  | None => None
  | Some e =>
      let st := with_el st e in
      let st := with_data st ((fun r => set_node r None) <$> data st) in
      let st := with_rowsWithNodes st [] in
      let nodesToBuild := Z.min (availableNodes st) (Z.of_nat (length (data st))) in
      let st := build_loop (Z.to_nat nodesToBuild) 0 st in
      let st := add_bottomEl st in
      Some (with_el st (addEventListener (el st)))
  end.

(** ** updateVisibleRows (source lines 91-117) *)

Definition Qltb (x y : Q) : bool := negb (Qle_bool y x).

(** [_.sortedIndex(array, value, '__top')] of lodash (the three-argument
    form): a binary search for the lowest index at which [value] can be
    inserted.  [low], [high] and [mid] are the variables of lodash's loop
    [while (low < high) { mid = floor((low + high) / 2); ... }]. *)
Fixpoint sortedIndex_loop (fuel : nat) (array : list Row) (value : Q)
    (low high : nat) : nat :=
  match fuel with
  | O => high
  | S fuel' =>
      if (low <? high)%nat then
        let mid := ((low + high) / 2)%nat in
        let setLow :=
          match array !! mid with
          | Some r => Qltb (__top r) value
          | None => false
          end in
        if setLow then sortedIndex_loop fuel' array value (S mid) high
        else sortedIndex_loop fuel' array value low mid
      else high
  end.

Definition sortedIndex (array : list Row) (value : Q) : nat :=
  sortedIndex_loop (S (length array)) array value 0 (length array).

(** [Math.ceil(a / 2)] for an integer [a]. *)
Definition ceil_half (a : Z) : Z := ((a + 1) / 2)%Z.

Definition screenMidpoint (st : State) : Q :=
  let screenTop := scrollTop (el st) in
  let screenBottom := scrollTop (el st) + clientHeight (el st) in
  (screenTop + screenBottom) / 2.

Definition midNdx (st : State) : nat := sortedIndex (data st) (screenMidpoint st).

Definition fillStart (st : State) : Z :=
  Z.max 0 (Z.of_nat (midNdx st) - ceil_half (availableNodes st)).

Definition fillEnd (st : State) : Z :=
  Z.min (Z.of_nat (length (data st)))
        (Z.of_nat (midNdx st) + ceil_half (availableNodes st)).

(** Result of code that may throw: the state is the one the exception
    leaves behind. *)
Inductive Outcome (A : Type) :=
| Done (a : A)
| Throws (st : State).
Arguments Done {A} a.
Arguments Throws {A} st.

(** Lines 107-108: the scan for a node to take.  Reading
    [rowsWithNodes[freeSearchNdx]] past the end gives [undefined], which
    compares false and ends the loop. *)
Fixpoint scan (fuel : nat) (rwn : list nat) (fillStart fillEnd freeSearchNdx : nat)
    : nat :=
  match fuel with
  | O => freeSearchNdx
  | S fuel' =>
      match rwn !! freeSearchNdx with
      | Some r =>
          if (fillStart <? r)%nat && (r <? fillEnd)%nat
          then scan fuel' rwn fillStart fillEnd (S freeSearchNdx)
          else freeSearchNdx
      | None => freeSearchNdx
      end
  end.

(** Body of the loop of lines 105-116 for one [rowNdx]; the result carries
    the new [freeSearchNdx]. *)
Definition serve_row (fillStart fillEnd rowNdx freeSearchNdx : nat) (st : State)
    : Outcome (State * nat) :=
  match data st !! rowNdx with
  | None => Throws st
  | Some row =>
      match __node row with
      | Some _ => Done (st, freeSearchNdx)
      | None =>
          let freeSearchNdx :=
            scan (length (rowsWithNodes st)) (rowsWithNodes st)
                 fillStart fillEnd freeSearchNdx in
          match rowsWithNodes st !! freeSearchNdx with
          | None => Throws st          (* data[undefined].__node *)
          | Some victim =>
              match data st !! victim with
              | None => Throws st
              | Some vrow =>
                  let st := assign_node rowNdx (__node vrow) st in
                  let st := log_call (UpdateRow rowNdx (__node vrow)) st in
                  match __node vrow with
                  | None => Throws st  (* null.style *)
                  | Some nd =>
                      let st := set_style_top nd (__top row) st in
                      let st := assign_node victim None st in
                      let st := with_rowsWithNodes st
                                  (<[freeSearchNdx := rowNdx]> (rowsWithNodes st)) in
                      Done (st, S freeSearchNdx)
                  end
              end
          end
      end
  end.

(** The loop of lines 105-116, [count] iterations from [rowNdx]. *)
Fixpoint recycle (count : nat) (fillStart fillEnd rowNdx freeSearchNdx : nat)
    (st : State) : Outcome (State * nat) :=
  match count with
  | O => Done (st, freeSearchNdx)
  | S count' =>
      match serve_row fillStart fillEnd rowNdx freeSearchNdx st with
      | Done (st', c') => recycle count' fillStart fillEnd (S rowNdx) c' st'
      | Throws st' => Throws st'
      end
  end.

(** The scroll handler.  The window bounds are natural numbers when the
    loop runs: [fillStart] is at least 0, and with a negative [fillEnd]
    the loop body is not entered. *)
Definition updateVisibleRows (st : State) : Outcome State :=
  if isUpdating st then Done st
  else
    let st := with_isUpdating st true in
    let midNdx := midNdx st in
    let freeSearchNdx := O in
    let fillStart := Z.to_nat (fillStart st) in
    let fillEnd := Z.to_nat (fillEnd st) in
    if decide (lastMidNdx st = Some midNdx) then Done (with_isUpdating st false)
    else
      let st := with_lastMidNdx st (Some midNdx) in
      match recycle (fillEnd - fillStart) fillStart fillEnd fillStart
                    freeSearchNdx st with
      | Done (st', _) => Done (with_isUpdating st' false)
      | Throws st' => Throws st'
      end.

Definition outcome_state (o : Outcome State) : State :=
  match o with
  | Done st => st
  | Throws st => st
  end.

Definition returned {A : Type} (o : Outcome A) : bool :=
  match o with
  | Done _ => true
  | Throws _ => false
  end.

End Model.

Arguments Row : clear implicits.
Arguments State : clear implicits.
Arguments Done {Payload A} a.
Arguments Throws {Payload A} st.

(** ** The constructor (source lines 28-47) *)

Section Constructor.

Context {Payload : Type}.

(** The options object.  A property that is absent (or holds a falsy
    value where the constructor tests it) is [None] / [false]; the two
    callbacks are opaque, so only their presence is recorded. *)
Record Options := mkOptions {
  opts_el : option Element;
  opts_data : option (list (Row Payload));
  opts_buildRow : bool;
  opts_updateRow : bool;
  opts_heightFn : option (Row Payload -> Q);
  opts_availableNodes : option Z;
  opts_visibleHeight : option Q
}.

(** The [defaults] object of lines 28-32. *)
Definition default_heightFn : Row Payload -> Q := fun _ => 10.
Definition default_availableNodes : Z := 100.
Definition default_visibleHeight : Q := 400.

(** The option named in [Error("Need to pass `...` into ScrollableTable.")]. *)
Inductive RequiredOption := OptEl | OptData | OptBuildRow | OptUpdateRow.

Inductive Constructed :=
| NeedToPass (o : RequiredOption)               (* the constructor throws *)
| Table (heightFn : Row Payload -> Q) (st : State Payload)
| ResetRunsOn.                  (* [reset] has not returned within the fuel *)

(** The object after [_.extend(this, defaults, opts)] and
    [this.rowsWithNodes = []], before [this.reset()].  The fields that
    [reset] writes before anything reads them start at 0 / [None]. *)
Definition extended (e : Element) (d : list (Row Payload)) (opts : Options)
    : State Payload :=
  {| data := d;
     rowsWithNodes := [];
     availableNodes := default default_availableNodes (opts_availableNodes opts);
     visibleHeight := default default_visibleHeight (opts_visibleHeight opts);
     totalHeight := 0;
     yPosition := 0;
     bottomEl := None;
     isUpdating := false;
     lastMidNdx := None;
     el := e;
     heap := [];
     calls := [] |}.

Definition ScrollableTable (fuel : nat) (opts : Options) : Constructed :=
  match opts_el opts with
  | None => NeedToPass OptEl
  | Some e =>
      match opts_data opts with
      | None => NeedToPass OptData
      | Some d =>
          if negb (opts_buildRow opts) then NeedToPass OptBuildRow
          else if negb (opts_updateRow opts) then NeedToPass OptUpdateRow
          else
            let heightFn := default default_heightFn (opts_heightFn opts) in
            match reset heightFn fuel (extended e d opts) with
            | Some st => Table heightFn st
            | None => ResetRunsOn
            end
      end
  end.

End Constructor.

Arguments Options : clear implicits.
Arguments Constructed : clear implicits.

(** ** Vocabulary of the properties *)

Section Vocabulary.

Context {Payload : Type}.

(** The offsets of the rows are in ascending order. *)
Definition ascending (rows : list (Row Payload)) : Prop :=
  forall i j ri rj, (i <= j)%nat ->
    rows !! i = Some ri -> rows !! j = Some rj -> __top ri <= __top rj.

(** The same, checked on neighbours. *)
Fixpoint ascendingb (rows : list (Row Payload)) : bool :=
  match rows with
  | r0 :: ((r1 :: _) as rest) => Qle_bool (__top r0) (__top r1) && ascendingb rest
  | _ => true
  end.

(** [k] is the lower-bound insertion point of [value]: the first index
    whose offset is at least [value], the number of rows when there is
    none. *)
Definition lower_bound (rows : list (Row Payload)) (value : Q) (k : nat) : Prop :=
  (k <= length rows)%nat
  /\ (forall i r, (i < k)%nat -> rows !! i = Some r -> __top r < value)
  /\ (forall r, rows !! k = Some r -> value <= __top r).

(** What a recycle pass leaves alone: the guard and the last midpoint
    index (set before the loop), the container, the configuration and the
    offsets of the rows. *)
Definition same_frame (st st' : State Payload) : Prop :=
  isUpdating st' = isUpdating st
  /\ lastMidNdx st' = lastMidNdx st
  /\ el st' = el st
  /\ availableNodes st' = availableNodes st
  /\ __top <$> data st' = __top <$> data st
  /\ bottomEl st' = bottomEl st
  /\ totalHeight st' = totalHeight st.

(** The state in which the loop of lines 105-116 starts, and the window
    it runs over. *)
Definition pass_entry (st : State Payload) : State Payload :=
  with_lastMidNdx (with_isUpdating st true) (Some (midNdx st)).

Definition pass (st : State Payload) : Outcome (State Payload * nat) :=
  let fs := Z.to_nat (fillStart st) in
  let fe := Z.to_nat (fillEnd st) in
  recycle (fe - fs) fs fe fs 0 (pass_entry st).

(** The node of a row and the position written to it. *)
Definition node_of (st : State Payload) (i : nat) : option NodeId :=
  data st !! i ≫= __node.

Definition position (st : State Payload) (i : nat) : option Q :=
  nd ← node_of st i; n ← heap st !! nd; style_top n.

(** The callback invocations among the calls. *)
Definition is_build (c : Call) : bool :=
  match c with BuildRow _ _ => true | UpdateRow _ _ => false end.

(** The rows that hold a node, in index order. *)
Definition assigned (st : State Payload) : list nat :=
  filter (fun i => is_Some (node_of st i)) (seq 0 (length (data st))).

(** [rowsWithNodes] lists, without repetition, exactly the rows that hold
    a node, and no node is held by two rows. *)
Definition consistent (st : State Payload) : Prop :=
  NoDup (rowsWithNodes st)
  /\ (forall i, i ∈ rowsWithNodes st <-> is_Some (node_of st i))
  /\ (forall i j nd, node_of st i = Some nd -> node_of st j = Some nd -> i = j).

(** A row index strictly inside the window, which is what the scan of
    lines 107-108 tests. *)
Definition strictly_inside (fs fe r : nat) : Prop := (fs < r)%nat /\ (r < fe)%nat.

#[global] Instance strictly_inside_dec fs fe r : Decision (strictly_inside fs fe r).
Proof. unfold strictly_inside. apply _. Defined.

(** The slots of [rowsWithNodes] that differ between two states. *)
Definition changed_slots (st st' : State Payload) : list nat :=
  filter (fun j => rowsWithNodes st !! j <> rowsWithNodes st' !! j)
         (seq 0 (length (rowsWithNodes st))).

(** The states of a table in use: what a [reset] that returns leaves, and
    from there any scrolling of the container and any run of the scroll
    handler, whether it returns or throws. *)
Inductive reachable (heightFn : Row Payload -> Q) : State Payload -> Prop :=
| reachable_reset fuel st st' :
    reset heightFn fuel st = Some st' -> reachable heightFn st'
| reachable_scrollTo y st :
    reachable heightFn st -> reachable heightFn (scrollTo y st)
| reachable_handler st :
    reachable heightFn st ->
    reachable heightFn (outcome_state (updateVisibleRows st)).

(** C1 as the specification states it, for a pass from [st] to [st']. *)
Definition bijection_as_stated (st st' : State Payload) : Prop :=
  Z.of_nat (length (assigned st'))
    = Z.min (fillEnd st - fillStart st) (availableNodes st)
  /\ (forall i, i ∈ assigned st' -> (fillStart st <= Z.of_nat i < fillEnd st)%Z)
  /\ (forall i j nd, node_of st' i = Some nd -> node_of st' j = Some nd -> i = j).

(** C3 as the specification states it: the pass that follows a pass
    resumes the scan at the cursor that pass ended with. *)
Definition cursor_persists_as_stated (st : State Payload) (y : Q) : Prop :=
  forall st1 c1,
    pass st = Done (st1, c1) ->
    let next := scrollTo y (with_isUpdating st1 false) in
    let fs := Z.to_nat (fillStart next) in
    let fe := Z.to_nat (fillEnd next) in
    pass next = recycle (fe - fs) fs fe fs c1 (pass_entry next).

(** The rows among the [count] rows from [rowNdx] that lack a node, and
    the slots of [rowsWithNodes], from the cursor on, from which the scan
    can take one. *)
Definition lacking (st : State Payload) (rowNdx count : nat) : nat :=
  length (filter (fun i => ~ is_Some (node_of st i)) (seq rowNdx count)).

Definition free_slots (fs fe : nat) (rwn : list nat) (c : nat) : nat :=
  length (filter (fun r => ~ strictly_inside fs fe r) (drop c rwn)).

(** The offset of a row. *)
Definition top_of (st : State Payload) (i : nat) : option Q :=
  __top <$> data st !! i.

(** Every row that holds a node has the node placed at the row's offset,
    and the bottom element is no row's node and sits at the total
    height. *)
Definition positioned (st : State Payload) : Prop :=
  (forall i, is_Some (node_of st i) -> position st i = top_of st i)
  /\ (forall b, bottomEl st = Some b ->
        heap st !! b = Some (mkDomNode (Some (totalHeight st)))
        /\ forall i, node_of st i <> Some b).

(** The calls that a pass adds serve the rows [rows], one [updateRow]
    each, in this order. *)
Definition updates (new : list Call) (rows : list nat) : Prop :=
  Forall2 (fun c i => exists nd, c = UpdateRow i (Some nd)) new rows.

(** The rows of the window that lack a node. *)
Definition window_lacking (st : State Payload) : list nat :=
  filter (fun i => ~ is_Some (node_of st i))
    (seq (Z.to_nat (fillStart st))
         (Z.to_nat (fillEnd st) - Z.to_nat (fillStart st))).


End Vocabulary.

(** ** Scenarios

    Tables whose rows carry no payload and all have height 10, as built
    by the constructor: an empty container 400 px high, nothing assigned
    yet. *)

Definition height10 : Row unit -> Q := fun _ => 10.

Definition fresh_table (rowCount : nat) (availableNodes : Z) : State unit :=
  {| data := replicate rowCount (mkRow tt 0 None);
     rowsWithNodes := [];
     availableNodes := availableNodes;
     visibleHeight := 400;
     totalHeight := 0;
     yPosition := 0;
     bottomEl := None;
     isUpdating := false;
     lastMidNdx := None;
     el := mkElement [] 0 400 None true 0;
     heap := [];
     calls := [] |}.

(** The table that [new ScrollableTable(...)] leaves: the constructor
    runs [reset] on the fresh object. *)
Definition constructed (rowCount : nat) (availableNodes : Z) : State unit :=
  match reset height10 1 (fresh_table rowCount availableNodes) with
  | Some st => st
  | None => fresh_table rowCount availableNodes
  end.

(** The handler run on a scroll to [y]; the state it leaves, whether it
    returned or threw. *)
Definition after_scroll (y : Q) (st : State unit) : State unit :=
  outcome_state (updateVisibleRows (scrollTo y st)).

(** [P] holds of the table with [rowCount] rows and [availableNodes] nodes
    once the constructor's [reset] has returned. *)
Definition after_reset (rowCount : nat) (availableNodes : Z)
    (P : State unit -> Prop) : Prop :=
  match reset height10 1 (fresh_table rowCount availableNodes) with
  | Some st => P st
  | None => False
  end.

(** Scenario A, scrolled: 1000 rows, 100 nodes; the container is scrolled
    to 100 (window 0 .. 80) or to 5000 (window 470 .. 570) when the first
    scroll notification arrives. *)
Definition scenarioA_at_100 : State unit := scrollTo 100 (constructed 1000 100).
Definition scenarioA_at_5000 : State unit := scrollTo 5000 (constructed 1000 100).

(** 1000 rows and an even number of nodes, 4, scrolled down two rows at a
    time: to 20 (window 20 .. 24), to 40 (window 22 .. 26), and then to 60
    (window 24 .. 28), where the third notification is about to run. *)
Definition four_nodes_at_20 : State unit := scrollTo 20 (constructed 1000 4).
Definition four_nodes_at_40 : State unit :=
  scrollTo 40 (after_scroll 20 (constructed 1000 4)).
Definition four_nodes_at_60 : State unit :=
  scrollTo 60 (after_scroll 40 (after_scroll 20 (constructed 1000 4))).

(** 1000 rows and an odd number of nodes, 3, scrolled to 20: the window
    20 .. 24 has four rows. *)
Definition three_nodes_at_20 : State unit := scrollTo 20 (constructed 1000 3).

(** The state and cursor a pass ends with. *)
Definition pass_result (st : State unit) : State unit * nat :=
  match pass st with
  | Done x => x
  | Throws st' => (st', O)
  end.

(** * Properties *)

Section Properties.

Context {Payload : Type} (heightFn : Row Payload -> Q).

(** ** The offset index *)

Lemma calculateHeights_loop_length (rows : list (Row Payload)) total :
  length (calculateHeights_loop heightFn rows total).1 = length rows.
Proof.
  revert total. induction rows as [|r rs IH]; intros total; simpl; [done|].
  specialize (IH (total + heightFn (set_top r total))).
  destruct (calculateHeights_loop heightFn rs _) as [rs' t']. simpl in *. by rewrite IH.
Qed.

Lemma calculateHeights_loop_total (rows : list (Row Payload)) total :
  (calculateHeights_loop heightFn rows total).2
  = sum_heights_from heightFn total (calculateHeights_loop heightFn rows total).1.
Proof.
  revert total. induction rows as [|r rs IH]; intros total; simpl; [done|].
  specialize (IH (total + heightFn (set_top r total))).
  destruct (calculateHeights_loop heightFn rs _) as [rs' t']. simpl in *. done.
Qed.

Lemma calculateHeights_loop_lookup (rows : list (Row Payload)) total i r' :
  (calculateHeights_loop heightFn rows total).1 !! i = Some r' ->
  __top r' = sum_heights_from heightFn total (take i (calculateHeights_loop heightFn rows total).1)
  /\ exists r, rows !! i = Some r /\ r' = set_top r (__top r').
Proof.
  revert total i. induction rows as [|r rs IH]; intros total i; simpl; [done|].
  specialize (IH (total + heightFn (set_top r total))).
  destruct (calculateHeights_loop heightFn rs _) as [rs' t']. simpl in *.
  destruct i as [|i]; simpl.
  - intros [= <-]. split; [done|]. by exists r.
  - intros Hi. by apply IH.
Qed.

Lemma sum_heights_from_snoc start rows r :
  sum_heights_from heightFn start (rows ++ [r]) = sum_heights_from heightFn start rows + heightFn r.
Proof. unfold sum_heights_from. by rewrite fold_left_app. Qed.

Lemma sum_heights_from_le start rows :
  (forall r, 0 <= heightFn r) -> start <= sum_heights_from heightFn start rows.
Proof.
  intros Hnn. revert start. induction rows as [|r rs IH]; intros start; simpl.
  - apply Qle_refl.
  - eapply Qle_trans; [|apply IH]. specialize (Hnn r). lra.
Qed.

Lemma sum_heights_from_app start l1 l2 :
  sum_heights_from heightFn start (l1 ++ l2) = sum_heights_from heightFn (sum_heights_from heightFn start l1) l2.
Proof. unfold sum_heights_from. by rewrite fold_left_app. Qed.

(** C9.  [calculateHeights] gives every row the sum of the heights of the
    rows before it, so that consecutive offsets differ by the height of
    the earlier row; it returns the sum of all heights as total extent; on
    zero rows it returns 0 and writes no offset; and when the height
    function is non-negative the offsets are non-decreasing over the whole
    row sequence.  Heights are those of the rows as [calculateHeights]
    leaves them, which is what the height function is called on. *)
Theorem calculateHeights_offsets (rows : list (Row Payload)) :
  let rows' := (calculateHeights heightFn rows).1 in
  let total := (calculateHeights heightFn rows).2 in
  length rows' = length rows
  /\ (forall i r', rows' !! i = Some r' ->
        __top r' = sum_heights heightFn (take i rows')
        /\ exists r, rows !! i = Some r
             /\ payload r' = payload r /\ __node r' = __node r)
  /\ (forall i r0 r1, rows' !! i = Some r0 -> rows' !! (S i) = Some r1 ->
        __top r1 = __top r0 + heightFn r0)
  /\ total = sum_heights heightFn rows'
  /\ calculateHeights heightFn [] = ([], 0)
  /\ ((forall r, 0 <= heightFn r) ->
      forall i j ri rj, (i <= j)%nat ->
        rows' !! i = Some ri -> rows' !! j = Some rj -> __top ri <= __top rj).
Proof.
  intros rows' total. subst rows' total. unfold calculateHeights, sum_heights.
  assert (Htop : forall i r', (calculateHeights_loop heightFn rows 0).1 !! i = Some r' ->
     __top r' = sum_heights_from heightFn 0 (take i (calculateHeights_loop heightFn rows 0).1)).
  { intros i r' Hi. by apply calculateHeights_loop_lookup in Hi as [? _]. }
  split; [apply calculateHeights_loop_length|].
  split.
  { intros i r' Hi. split; [by apply Htop|].
    apply calculateHeights_loop_lookup in Hi as [_ (r & Hr & Heq)].
    exists r. split; [done|]. rewrite Heq. done. }
  split.
  { intros i r0 r1 H0 H1.
    rewrite (Htop _ _ H1), (Htop _ _ H0).
    rewrite (take_S_r _ _ _ H0). apply sum_heights_from_snoc. }
  split; [apply calculateHeights_loop_total|].
  split; [done|].
  intros Hnn i j ri rj Hij Hi Hj.
  rewrite (Htop _ _ Hi), (Htop _ _ Hj).
  replace j with (i + (j - i))%nat by lia.
  rewrite <- take_take_drop, sum_heights_from_app.
  by apply sum_heights_from_le.
Qed.

(** ** The window locator *)

Lemma Qltb_lt x y : Qltb x y = true <-> x < y.
Proof.
  unfold Qltb. rewrite negb_true_iff, <- not_true_iff_false, Qle_bool_iff.
  split; [apply Qnot_le_lt | apply Qlt_not_le].
Qed.

Lemma Qltb_ge x y : Qltb x y = false <-> y <= x.
Proof. unfold Qltb. by rewrite negb_false_iff, Qle_bool_iff. Qed.

Lemma ascendingb_sound (rows : list (Row Payload)) :
  ascendingb rows = true -> ascending rows.
Proof.
  induction rows as [|r0 rows IH]; [by intros _ [|?] [|?] ????|].
  destruct rows as [|r1 rest].
  { intros _ [|i] [|j] ri rj _ Hi Hj; simplify_eq/=; try done. apply Qle_refl. }
  cbn [ascendingb]. rewrite andb_true_iff, Qle_bool_iff.
  intros [H01 Hrest]. specialize (IH Hrest).
  assert (Hhd : forall j rj, (r1 :: rest) !! j = Some rj -> __top r1 <= __top rj).
  { intros j rj Hj. apply (IH O j r1 rj); [lia|done|done]. }
  intros [|i] [|j] ri rj Hij Hi Hj; simplify_eq/=.
  - apply Qle_refl.
  - eapply Qle_trans; [exact H01|]. by eapply Hhd.
  - lia.
  - apply (IH i j); [lia|done|done].
Qed.

Lemma half_between (low high : nat) :
  (low < high)%nat ->
  (low <= (low + high) / 2)%nat /\ ((low + high) / 2 < high)%nat.
Proof.
  intros Hlt.
  pose proof (Nat.div_mod_eq (low + high) 2) as Hdm.
  pose proof (Nat.mod_upper_bound (low + high) 2). lia.
Qed.

(** The loop invariant of the binary search: everything left of [low] is
    below [value], everything from [high] on is not. *)
Lemma sortedIndex_loop_spec (array : list (Row Payload)) (value : Q) fuel :
  ascending array ->
  forall low high,
    (low <= high)%nat -> (high <= length array)%nat ->
    (high - low < fuel)%nat ->
    (forall i r, (i < low)%nat -> array !! i = Some r -> __top r < value) ->
    (forall i r, (high <= i)%nat -> array !! i = Some r -> value <= __top r) ->
    let k := sortedIndex_loop fuel array value low high in
    (k <= length array)%nat
    /\ (forall i r, (i < k)%nat -> array !! i = Some r -> __top r < value)
    /\ (forall i r, (k <= i)%nat -> array !! i = Some r -> value <= __top r).
Proof.
  intros Hasc. induction fuel as [|fuel IH]; intros low high Hlh Hhn Hfuel Hlo Hhi.
  { lia. }
  cbn [sortedIndex_loop].
  destruct (Nat.ltb_spec low high) as [Hlt|Hge].
  2:{ cbv zeta. split; [done|]. split; [|done].
      intros i r Hi. apply Hlo. lia. }
  destruct (half_between low high Hlt) as [Hm1 Hm2].
  set (mid := ((low + high) / 2)%nat) in *.
  destruct (lookup_lt_is_Some_2 array mid) as [rm Hrm]; [lia|].
  rewrite Hrm. destruct (Qltb (__top rm) value) eqn:Hcmp.
  - apply Qltb_lt in Hcmp. apply IH; [lia|lia|lia| |done].
    intros i r Hi Hr. eapply Qle_lt_trans; [|exact Hcmp].
    apply (Hasc i mid); [lia|done|done].
  - apply Qltb_ge in Hcmp. apply IH; [lia|lia|lia|done|].
    intros i r Hi Hr. eapply Qle_trans; [exact Hcmp|].
    apply (Hasc mid i); [lia|done|done].
Qed.

Lemma sortedIndex_lower_bound (array : list (Row Payload)) (value : Q) :
  ascending array -> lower_bound array value (sortedIndex array value).
Proof.
  intros Hasc. unfold sortedIndex.
  destruct (sortedIndex_loop_spec array value (S (length array)) Hasc
              0%nat (length array)) as (Hk & Hlo & Hhi); [lia|lia|lia|lia| |].
  { intros i r Hi Hr. apply lookup_lt_Some in Hr. lia. }
  split; [done|]. split; [done|]. intros r Hr. by apply (Hhi _ r (le_n _)).
Qed.

(** The insertion point is unique, so [lower_bound] defines it. *)
Lemma lower_bound_unique (rows : list (Row Payload)) value k1 k2 :
  ascending rows -> lower_bound rows value k1 -> lower_bound rows value k2 ->
  k1 = k2.
Proof.
  intros Hasc (Hn1 & Hlo1 & Hhi1) (Hn2 & Hlo2 & Hhi2).
  destruct (Nat.lt_trichotomy k1 k2) as [Hlt|[->|Hlt]]; [|done|].
  - destruct (lookup_lt_is_Some_2 rows k1) as [r Hr]; [lia|].
    pose proof (Hhi1 r Hr). pose proof (Hlo2 k1 r Hlt Hr). lra.
  - destruct (lookup_lt_is_Some_2 rows k2) as [r Hr]; [lia|].
    pose proof (Hhi2 r Hr). pose proof (Hlo1 k2 r Hlt Hr). lra.
Qed.

(** [ceil_half a] is the least integer that is at least [a / 2]. *)
Lemma ceil_half_spec (a : Z) :
  (a <= 2 * ceil_half a)%Z /\ (forall k, a <= 2 * k -> ceil_half a <= k)%Z.
Proof.
  unfold ceil_half. split.
  - pose proof (Z.div_mod (a + 1) 2). pose proof (Z.mod_pos_bound (a + 1) 2). lia.
  - intros k Hk. enough ((a + 1) / 2 < k + 1)%Z by lia.
    apply Z.div_lt_upper_bound; lia.
Qed.

(** ** The scroll handler: case analysis and frame *)

Lemma with_isUpdating_restore (st : State Payload) :
  isUpdating st = false -> with_isUpdating (with_isUpdating st true) false = st.
Proof. destruct st; simpl; intros ->; reflexivity. Qed.

(** The four ways through [updateVisibleRows]. *)
Lemma updateVisibleRows_cases (st : State Payload) :
  (isUpdating st = true /\ updateVisibleRows st = Done st)
  \/ (isUpdating st = false /\ lastMidNdx st = Some (midNdx st)
      /\ updateVisibleRows st = Done st)
  \/ (isUpdating st = false /\ lastMidNdx st <> Some (midNdx st)
      /\ exists st' c, pass st = Done (st', c)
           /\ updateVisibleRows st = Done (with_isUpdating st' false))
  \/ (isUpdating st = false /\ lastMidNdx st <> Some (midNdx st)
      /\ exists st', pass st = Throws st' /\ updateVisibleRows st = Throws st').
Proof.
  unfold updateVisibleRows, pass, pass_entry.
  destruct (isUpdating st) eqn:Hup; [by left|right].
  change (midNdx (with_isUpdating st true)) with (midNdx st).
  change (fillStart (with_isUpdating st true)) with (fillStart st).
  change (fillEnd (with_isUpdating st true)) with (fillEnd st).
  change (lastMidNdx (with_isUpdating st true)) with (lastMidNdx st).
  destruct (decide (lastMidNdx st = Some (midNdx st))) as [Heq|Hne].
  { left. split; [done|]. split; [done|]. by rewrite with_isUpdating_restore. }
  right.
  destruct (recycle _ _ _ _ _ _) as [[st' c]|st'] eqn:Hrec.
  - left. split; [done|]. split; [done|]. by exists st', c.
  - right. split; [done|]. split; [done|]. by exists st'.
Qed.

Lemma same_frame_refl (st : State Payload) : same_frame st st.
Proof. by repeat split. Qed.

Lemma same_frame_trans (st1 st2 st3 : State Payload) :
  same_frame st1 st2 -> same_frame st2 st3 -> same_frame st1 st3.
Proof.
  unfold same_frame. intros (?&?&?&?&?&?&?) (?&?&?&?&?&?&?).
  repeat split; congruence.
Qed.

Lemma fmap_top_alter_node (d : list (Row Payload)) i n :
  __top <$> alter (fun r => set_node r n) i d = __top <$> d.
Proof.
  apply list_eq. intros j. rewrite !list_lookup_fmap.
  destruct (decide (i = j)) as [->|Hne].
  - rewrite list_lookup_alter_eq. by destruct (d !! j).
  - by rewrite list_lookup_alter_ne.
Qed.

Lemma same_frame_assign_node i n (st : State Payload) :
  same_frame st (assign_node i n st).
Proof.
  unfold same_frame, assign_node; simpl. rewrite fmap_top_alter_node.
  by repeat split.
Qed.

Lemma serve_row_frame fs fe rowNdx c (st : State Payload) :
  match serve_row fs fe rowNdx c st with
  | Done (st', _) => same_frame st st'
  | Throws st' => same_frame st st'
  end.
Proof.
  unfold serve_row.
  destruct (data st !! rowNdx) as [row|]; [|apply same_frame_refl].
  destruct (__node row); [apply same_frame_refl|].
  destruct (rowsWithNodes st !! _) as [victim|]; [|apply same_frame_refl].
  destruct (data st !! victim) as [vrow|]; [|apply same_frame_refl].
  destruct (__node vrow) as [nd|].
  - unfold same_frame; simpl. rewrite !fmap_top_alter_node. by repeat split.
  - unfold same_frame; simpl. rewrite !fmap_top_alter_node. by repeat split.
Qed.

Lemma recycle_frame count fs fe rowNdx c (st : State Payload) :
  match recycle count fs fe rowNdx c st with
  | Done (st', _) => same_frame st st'
  | Throws st' => same_frame st st'
  end.
Proof.
  revert rowNdx c st. induction count as [|count IH]; intros rowNdx c st; simpl.
  { apply same_frame_refl. }
  pose proof (serve_row_frame fs fe rowNdx c st) as Hstep.
  destruct (serve_row fs fe rowNdx c st) as [[st1 c1]|st1]; [|done].
  specialize (IH (S rowNdx) c1 st1).
  destruct (recycle count fs fe (S rowNdx) c1 st1) as [[st2 c2]|st2];
    by eapply same_frame_trans.
Qed.

Lemma pass_frame (st : State Payload) :
  match pass st with
  | Done (st', _) => same_frame (pass_entry st) st'
  | Throws st' => same_frame (pass_entry st) st'
  end.
Proof. apply recycle_frame. Qed.

(** The binary search reads the offsets only. *)
Lemma sortedIndex_loop_tops (a1 a2 : list (Row Payload)) value fuel low high :
  __top <$> a1 = __top <$> a2 ->
  sortedIndex_loop fuel a1 value low high = sortedIndex_loop fuel a2 value low high.
Proof.
  intros Htops. revert low high.
  induction fuel as [|fuel IH]; intros low high; simpl; [done|].
  destruct (low <? high)%nat; [|done].
  assert (Hlk : __top <$> a1 !! ((low + high) / 2)%nat
              = __top <$> a2 !! ((low + high) / 2)%nat).
  { by rewrite <- !list_lookup_fmap, Htops. }
  destruct (a1 !! _) as [r1|], (a2 !! _) as [r2|]; simplify_eq/=; try done.
  rewrite Hlk. by destruct (Qltb _ _).
Qed.

Lemma midNdx_frame (st st' : State Payload) :
  scrollTop (el st') = scrollTop (el st) ->
  clientHeight (el st') = clientHeight (el st) ->
  __top <$> data st' = __top <$> data st ->
  midNdx st' = midNdx st.
Proof.
  intros Hst Hch Htops. unfold midNdx, screenMidpoint, sortedIndex.
  rewrite Hst, Hch.
  assert (Hlen : length (data st') = length (data st)).
  { by rewrite <- (length_fmap __top (data st')), Htops, length_fmap. }
  rewrite Hlen. by apply sortedIndex_loop_tops.
Qed.

(** The state a notification leaves has the guard clear after a return
    and set after an exception; unless the notification was dropped at
    the guard, [lastMidNdx] is the index it resolved to. *)
Lemma updateVisibleRows_guard (st : State Payload) :
  isUpdating st = false ->
  lastMidNdx (outcome_state (updateVisibleRows st)) = Some (midNdx st)
  /\ match updateVisibleRows st with
     | Done st' => isUpdating st' = false
     | Throws st' => isUpdating st' = true
     end.
Proof.
  intros Hup.
  destruct (updateVisibleRows_cases st)
    as [[Hc _]|[(_ & Hlast & ->)|[(_ & _ & st' & c & Hpass & ->)
       |(_ & _ & st' & Hpass & ->)]]]; simpl.
  - congruence.
  - done.
  - pose proof (pass_frame st) as Hfr. rewrite Hpass in Hfr.
    destruct Hfr as (_ & Hl & _). by rewrite Hl.
  - pose proof (pass_frame st) as Hfr. rewrite Hpass in Hfr.
    destruct Hfr as (Hu & Hl & _). by rewrite Hl, Hu.
Qed.

Lemma updateVisibleRows_frame (st : State Payload) :
  el (outcome_state (updateVisibleRows st)) = el st
  /\ __top <$> data (outcome_state (updateVisibleRows st)) = __top <$> data st
  /\ availableNodes (outcome_state (updateVisibleRows st)) = availableNodes st.
Proof.
  destruct (updateVisibleRows_cases st)
    as [[_ ->]|[(_ & _ & ->)|[(_ & _ & st' & c & Hpass & ->)
       |(_ & _ & st' & Hpass & ->)]]]; simpl; try done.
  - pose proof (pass_frame st) as Hfr. rewrite Hpass in Hfr.
    by destruct Hfr as (_ & _ & He & Ha & Ht & _).
  - pose proof (pass_frame st) as Hfr. rewrite Hpass in Hfr.
    by destruct Hfr as (_ & _ & He & Ha & Ht & _).
Qed.

(** A notification that finds the guard set is dropped. *)
Lemma updateVisibleRows_dropped (st : State Payload) :
  isUpdating st = true -> updateVisibleRows st = Done st.
Proof. intros Hup. unfold updateVisibleRows. by rewrite Hup. Qed.

Lemma isUpdating_scrollTo y (st : State Payload) :
  isUpdating (scrollTo y st) = isUpdating st.
Proof. done. Qed.

(** C5.  When the viewport positions of two consecutive scroll
    notifications resolve to the same [midNdx], the second notification
    returns and leaves the table exactly as it found it: no callback is
    invoked, no node is moved or repositioned and no assignment changes. *)
Theorem same_midNdx_is_noop (st : State Payload) (y1 y2 : Q) :
  midNdx (scrollTo y2 st) = midNdx (scrollTo y1 st) ->
  let st1 := outcome_state (updateVisibleRows (scrollTo y1 st)) in
  updateVisibleRows (scrollTo y2 st1) = Done (scrollTo y2 st1)
  /\ let st2 := outcome_state (updateVisibleRows (scrollTo y2 st1)) in
     calls st2 = calls st1 /\ heap st2 = heap st1
     /\ data st2 = data st1 /\ rowsWithNodes st2 = rowsWithNodes st1.
Proof.
  intros Hsame st1.
  assert (Hmid : midNdx (scrollTo y2 st1) = midNdx (scrollTo y1 st)).
  { rewrite <- Hsame.
    destruct (updateVisibleRows_frame (scrollTo y1 st)) as (Hel & Htops & _).
    fold st1 in Hel, Htops.
    apply midNdx_frame; [done| |done]. simpl. by rewrite Hel. }
  assert (Hret : updateVisibleRows (scrollTo y2 st1) = Done (scrollTo y2 st1)).
  { destruct (isUpdating (scrollTo y1 st)) eqn:Hup.
    - apply updateVisibleRows_dropped. rewrite isUpdating_scrollTo.
      subst st1. by rewrite (updateVisibleRows_dropped _ Hup).
    - destruct (updateVisibleRows_guard _ Hup) as [Hlast Hflag].
      fold st1 in Hlast.
      destruct (updateVisibleRows_cases (scrollTo y2 st1))
        as [[_ ->]|[(_ & _ & ->)|[(_ & Hne & _)|(Hup2 & Hne & _)]]]; try done.
      + exfalso. apply Hne. rewrite Hmid. exact Hlast.
      + exfalso. apply Hne. rewrite Hmid. exact Hlast. }
  split; [exact Hret|]. rewrite Hret. by simpl.
Qed.

(** ** reset *)

Lemma build_one_eq ndx (st : State Payload) row :
  data st !! ndx = Some row ->
  build_one ndx st =
    mkState (alter (fun r => set_node r (Some (length (heap st)))) ndx (data st))
      (rowsWithNodes st ++ [ndx]) (availableNodes st) (visibleHeight st)
      (totalHeight st) (yPosition st) (bottomEl st) (isUpdating st)
      (lastMidNdx st) (appendChild (el st) (length (heap st)))
      (heap st ++ [mkDomNode (Some (__top row))])
      (calls st ++ [BuildRow ndx (length (heap st))]).
Proof.
  intros Hrow. unfold build_one. rewrite Hrow. clear Hrow.
  destruct st as [d rwn an vh th yp be iu lm e hp cl].
  cbv [assign_node with_rowsWithNodes with_el set_style_top log_call
       with_heap with_calls with_data data rowsWithNodes availableNodes
       visibleHeight totalHeight yPosition bottomEl isUpdating lastMidNdx
       el heap calls].
  f_equal. rewrite insert_app_r_alt by lia. by rewrite Nat.sub_diag.
Qed.

(** What the loop of lines 66-72 has done after [count] iterations
    from [ndx]. *)
Lemma build_loop_spec count : forall ndx (st : State Payload),
  (ndx + count <= length (data st))%nat ->
  let st' := build_loop count ndx st in
  let h0 := length (heap st) in
  (forall i, data st' !! i =
     (fun r => if bool_decide (ndx <= i < ndx + count)%nat
               then set_node r (Some (h0 + (i - ndx))%nat) else r) <$> data st !! i)
  /\ rowsWithNodes st' = rowsWithNodes st ++ seq ndx count
  /\ heap st' = heap st ++
       ((fun r => mkDomNode (Some (__top r))) <$> take count (drop ndx (data st)))
  /\ calls st' = calls st ++
       ((fun j => BuildRow (ndx + j)%nat (h0 + j)%nat) <$> seq 0 count)
  /\ children (el st') = children (el st) ++ seq h0 count
  /\ scrollListeners (el st') = scrollListeners (el st)
  /\ totalHeight st' = totalHeight st
  /\ availableNodes st' = availableNodes st
  /\ bottomEl st' = bottomEl st.
Proof.
  induction count as [|count IH]; intros ndx st Hlen st' h0.
  { subst st'. simpl. rewrite !app_nil_r. repeat split; try done.
    intros i. destruct (data st !! i) as [r|]; [|done]. simpl.
    rewrite bool_decide_eq_false_2 by lia. done. }
  subst st'. cbn [build_loop].
  destruct (lookup_lt_is_Some_2 (data st) ndx) as [row Hrow]; [lia|].
  pose proof (build_one_eq ndx st row Hrow) as Hone.
  set (st1 := build_one ndx st) in *.
  assert (Hd1 : data st1 = alter (fun r => set_node r (Some h0)) ndx (data st))
    by (by rewrite Hone).
  assert (Hh1 : heap st1 = heap st ++ [mkDomNode (Some (__top row))])
    by (by rewrite Hone).
  assert (Hlen1 : length (heap st1) = S h0).
  { rewrite Hh1, length_app. simpl. subst h0. lia. }
  destruct (IH (S ndx) st1) as (Hdata & Hrwn & Hheap & Hcalls & Hch & Hsl & Hth & Han & Hb).
  { rewrite Hd1, length_alter. lia. }
  rewrite Hlen1 in *.
  split.
  { intros i. rewrite Hdata, Hd1.
    destruct (decide (i = ndx)) as [->|Hne].
    - rewrite list_lookup_alter_eq, Hrow. simpl.
      rewrite bool_decide_eq_false_2 by lia.
      rewrite bool_decide_eq_true_2 by lia. by rewrite Nat.sub_diag, Nat.add_0_r.
    - rewrite list_lookup_alter_ne by done.
      destruct (data st !! i) as [r|]; [|done]. simpl.
      destruct (decide (S ndx <= i < S ndx + count)%nat) as [Hin|Hout].
      + rewrite !bool_decide_eq_true_2 by lia.
        do 3 f_equal. lia.
      + by rewrite !bool_decide_eq_false_2 by lia. }
  split.
  { rewrite Hrwn, Hone. simpl. by rewrite <- app_assoc. }
  split.
  { rewrite Hheap, Hh1, Hd1, drop_alter_lt by lia.
    rewrite (drop_S _ _ _ Hrow). simpl. by rewrite <- app_assoc. }
  split.
  { rewrite Hcalls, Hone. cbn [calls]. rewrite <- app_assoc. f_equal.
    change (seq 0 (S count)) with (0%nat :: seq 1 count).
    rewrite <- fmap_S_seq, fmap_cons, <- list_fmap_compose. cbn [app].
    f_equal; [f_equal; lia|].
    apply list_fmap_ext. intros _ j _. simpl. f_equal; lia. }
  split.
  { rewrite Hch, Hone. simpl. by rewrite <- app_assoc. }
  rewrite Hsl, Hth, Han, Hb, Hone. simpl. done.
Qed.

(** Line 58 returns at once on an empty container and never otherwise. *)
Lemma clear_loop_empty fuel (e : Element) :
  children e = [] -> (0 < fuel)%nat -> clear_loop fuel e = Some e.
Proof.
  intros He Hfuel. destruct fuel as [|fuel]; [lia|].
  simpl. unfold firstChild. by rewrite He.
Qed.

Lemma clear_loop_diverges fuel (e : Element) :
  children e <> [] -> clear_loop fuel e = None.
Proof.
  revert e. induction fuel as [|fuel IH]; intros e He; simpl; [done|].
  unfold firstChild. destruct (children e) as [|c cs] eqn:Hc; [done|].
  simpl. apply IH. simpl. by rewrite Hc.
Qed.

Lemma setHeight_fields (st : State Payload) :
  data (setHeight heightFn st) = (calculateHeights heightFn (data st)).1
  /\ totalHeight (setHeight heightFn st) = (calculateHeights heightFn (data st)).2
  /\ children (el (setHeight heightFn st)) = children (el st)
  /\ scrollListeners (el (setHeight heightFn st)) = scrollListeners (el st)
  /\ heap (setHeight heightFn st) = heap st
  /\ calls (setHeight heightFn st) = calls st
  /\ availableNodes (setHeight heightFn st) = availableNodes st.
Proof.
  unfold setHeight. by destruct (calculateHeights heightFn (data st)) as [d t].
Qed.

(** The table that [reset] leaves when it starts on an empty container. *)
Lemma reset_spec fuel (st : State Payload) :
  children (el st) = [] -> (0 < fuel)%nat ->
  let d := (calculateHeights heightFn (data st)).1 in
  let t := (calculateHeights heightFn (data st)).2 in
  let k := Z.to_nat (Z.min (availableNodes st) (Z.of_nat (length (data st)))) in
  let h0 := length (heap st) in
  exists st', reset heightFn fuel st = Some st'
    /\ (forall i, data st' !! i =
          (fun r => set_node r (if bool_decide (i < k)%nat
                                then Some (h0 + i)%nat else None)) <$> d !! i)
    /\ rowsWithNodes st' = seq 0 k
    /\ heap st' = heap st
         ++ ((fun r => mkDomNode (Some (__top r))) <$> take k d)
         ++ [mkDomNode (Some t)]
    /\ calls st' = calls st ++ ((fun j => BuildRow j (h0 + j)%nat) <$> seq 0 k)
    /\ children (el st') = seq h0 k ++ [(h0 + k)%nat]
    /\ bottomEl st' = Some (h0 + k)%nat
    /\ totalHeight st' = t
    /\ scrollListeners (el st') = S (scrollListeners (el st))
    /\ availableNodes st' = availableNodes st.
Proof.
  intros Hempty Hfuel d t k h0. unfold reset.
  destruct (setHeight_fields (with_yPosition st 0))
    as (Hd & Ht & Hch & Hsl & Hh & Hc & Han).
  change (data (with_yPosition st 0)) with (data st) in Hd, Ht.
  change (el (with_yPosition st 0)) with (el st) in Hch, Hsl.
  change (heap (with_yPosition st 0)) with (heap st) in Hh.
  change (calls (with_yPosition st 0)) with (calls st) in Hc.
  change (availableNodes (with_yPosition st 0)) with (availableNodes st) in Han.
  fold d in Hd. fold t in Ht.
  set (s1 := setHeight heightFn (with_yPosition st 0)) in *.
  rewrite (clear_loop_empty fuel (el s1)) by (by rewrite ?Hch).
  set (s2 := with_rowsWithNodes _ []).
  assert (Hd2 : data s2 = (fun r => set_node r None) <$> d) by (by rewrite <- Hd).
  assert (Hlen2 : length (data s2) = length (data st)).
  { rewrite Hd2, length_fmap. apply calculateHeights_loop_length. }
  assert (Hk : Z.to_nat (Z.min (availableNodes s2) (Z.of_nat (length (data s2)))) = k).
  { rewrite Hlen2. subst k. by replace (availableNodes s2) with (availableNodes st). }
  rewrite Hk.
  destruct (build_loop_spec k 0%nat s2)
    as (Hdata & Hrwn & Hheap & Hcalls & Hchild & Hlis & Htot & Hav & Hbot).
  { rewrite Hlen2. subst k. lia. }
  set (s3 := build_loop k 0 s2) in *.
  assert (Hh2 : heap s2 = heap st) by (by subst s2; simpl; rewrite Hh).
  rewrite Hh2 in *. fold h0 in Hdata, Hcalls, Hchild.
  assert (Hlen3 : length (heap s3) = (h0 + k)%nat).
  { rewrite Hheap, length_app, length_fmap, length_take, drop_0, Hlen2.
    subst h0 k. lia. }
  eexists. split; [reflexivity|].
  unfold add_bottomEl. simpl. rewrite Hlen3.
  split.
  { intros i. rewrite Hdata, Hd2, list_lookup_fmap.
    destruct (d !! i) as [r|]; [|done]. simpl.
    destruct (decide (i < k)%nat).
    - rewrite !bool_decide_eq_true_2 by lia. unfold set_node; simpl.
      do 3 f_equal. lia.
    - by rewrite !bool_decide_eq_false_2 by lia. }
  split. { by rewrite Hrwn. }
  split.
  { rewrite insert_app_r_alt by lia. rewrite Hlen3, Nat.sub_diag. simpl.
    rewrite Hheap, <- app_assoc. do 2 f_equal.
    - rewrite drop_0, Hd2, <- fmap_take, <- list_fmap_compose. done.
    - rewrite Htot. subst s2. simpl. by rewrite Ht. }
  split. { rewrite Hcalls. subst s2; simpl. by rewrite Hc. }
  split. { rewrite Hchild. subst s2; simpl. by rewrite Hch, Hempty. }
  split; [done|].
  split. { rewrite Htot. subst s2; simpl. by rewrite Ht. }
  split. { rewrite Hlis. subst s2; simpl. by rewrite Hsl. }
  rewrite Hav. subst s2; simpl. by rewrite Han.
Qed.

(** [reset] leaves the bottom element in the container, so the container
    is never empty afterwards. *)
Lemma reset_children (st st' : State Payload) fuel :
  reset heightFn fuel st = Some st' -> children (el st') <> [].
Proof.
  unfold reset. destruct (clear_loop fuel _) as [e|]; [|done].
  intros [= <-]. unfold add_bottomEl. simpl.
  by destruct (children _).
Qed.

Lemma reset_needs_empty_container (st : State Payload) fuel :
  children (el st) <> [] -> reset heightFn fuel st = None.
Proof.
  intros Hne. unfold reset.
  destruct (setHeight_fields (with_yPosition st 0)) as (_ & _ & Hch & _).
  rewrite clear_loop_diverges; [done|]. by rewrite Hch.
Qed.

(** A [reset] that follows a [reset] never gets past line 58. *)
Lemma reset_after_reset (st st' : State Payload) fuel :
  reset heightFn fuel st = Some st' ->
  forall fuel', reset heightFn fuel' st' = None.
Proof.
  intros Hreset fuel'. apply reset_needs_empty_container.
  by eapply reset_children.
Qed.

(** ** The recycle pass *)

(** Where the scan of lines 107-108 stops. *)
Lemma scan_spec fuel (rwn : list nat) fs fe c :
  (length rwn <= c + fuel)%nat ->
  let j := scan fuel rwn fs fe c in
  (c <= j)%nat
  /\ (forall i, (c <= i < j)%nat ->
        exists r, rwn !! i = Some r /\ strictly_inside fs fe r)
  /\ (forall r, rwn !! j = Some r -> ~ strictly_inside fs fe r).
Proof.
  revert c. induction fuel as [|fuel IH]; intros c Hfuel; simpl.
  { split; [lia|]. split; [lia|]. intros r Hr. apply lookup_lt_Some in Hr. lia. }
  destruct (rwn !! c) as [r|] eqn:Hr.
  2:{ split; [lia|]. split; [lia|]. by rewrite Hr. }
  destruct ((fs <? r)%nat && (r <? fe)%nat) eqn:Hin.
  - apply andb_true_iff in Hin as [H1%Nat.ltb_lt H2%Nat.ltb_lt].
    destruct (IH (S c)) as (Hle & Hskip & Hstop); [lia|].
    split; [lia|]. split; [|done].
    intros i Hi. destruct (decide (i = c)) as [->|Hne].
    + by exists r.
    + apply Hskip. lia.
  - split; [lia|]. split; [lia|]. rewrite Hr. intros r' [= <-] [H1 H2].
    apply andb_false_iff in Hin as [Hin|Hin]; apply Nat.ltb_ge in Hin; lia.
Qed.

Lemma node_of_assign_node_ne i j n (st : State Payload) :
  i <> j -> node_of (assign_node i n st) j = node_of st j.
Proof. intros Hne. unfold node_of, assign_node; simpl. by rewrite list_lookup_alter_ne. Qed.

Lemma node_of_assign_node_eq i n (st : State Payload) :
  is_Some (data st !! i) -> node_of (assign_node i n st) i = n.
Proof.
  intros [r Hr]. unfold node_of, assign_node; simpl.
  by rewrite list_lookup_alter_eq, Hr.
Qed.

(** What one iteration of the loop does when it completes: nothing, when
    the row has a node; otherwise it takes the node of the row in the
    first slot, from the cursor on, whose row is not strictly inside the
    window. *)
Lemma serve_row_Done fs fe rowNdx c (st st' : State Payload) c' :
  serve_row fs fe rowNdx c st = Done (st', c') ->
  (is_Some (node_of st rowNdx) /\ st' = st /\ c' = c)
  \/ exists j victim nd row,
       data st !! rowNdx = Some row /\ __node row = None
       /\ (c <= j)%nat /\ c' = S j
       /\ (forall i, (c <= i < j)%nat ->
             exists r, rowsWithNodes st !! i = Some r /\ strictly_inside fs fe r)
       /\ rowsWithNodes st !! j = Some victim
       /\ ~ strictly_inside fs fe victim
       /\ victim <> rowNdx
       /\ node_of st victim = Some nd
       /\ rowsWithNodes st' = <[j := rowNdx]> (rowsWithNodes st)
       /\ (forall i, node_of st' i =
             if decide (i = victim) then None
             else if decide (i = rowNdx) then Some nd else node_of st i)
       /\ heap st' = <[nd := mkDomNode (Some (__top row))]> (heap st)
       /\ calls st' = calls st ++ [UpdateRow rowNdx (Some nd)]
       /\ length (data st') = length (data st).
Proof.
  unfold serve_row.
  destruct (data st !! rowNdx) as [row|] eqn:Hrow; [|done].
  destruct (__node row) as [n0|] eqn:Hn0.
  { intros [= <- <-]. left. split; [|done]. unfold node_of. rewrite Hrow. simpl.
    by rewrite Hn0. }
  destruct (scan_spec (length (rowsWithNodes st)) (rowsWithNodes st) fs fe c)
    as (Hle & Hskip & Hstop); [lia|].
  set (j := scan _ _ _ _ _) in *.
  destruct (rowsWithNodes st !! j) as [victim|] eqn:Hvictim; [|done].
  destruct (data st !! victim) as [vrow|] eqn:Hvrow; [|done].
  destruct (__node vrow) as [nd|] eqn:Hnd; [|done].
  intros [= <- <-]. right. exists j, victim, nd, row.
  assert (Hne : victim <> rowNdx) by (intros ->; congruence).
  split; [done|]. split; [done|]. split; [done|]. split; [done|].
  split; [done|]. split; [done|]. split; [by apply Hstop|]. split; [done|].
  split. { unfold node_of. rewrite Hvrow. simpl. done. }
  split; [done|].
  split.
  { intros i. unfold node_of; simpl.
    destruct (decide (i = victim)) as [->|Hiv].
    - rewrite list_lookup_alter_eq, list_lookup_alter_ne, Hvrow by done. done.
    - rewrite list_lookup_alter_ne by done.
      destruct (decide (i = rowNdx)) as [->|Hir].
      + by rewrite list_lookup_alter_eq, Hrow.
      + by rewrite list_lookup_alter_ne. }
  split; [done|]. split; [done|].
  simpl. by rewrite !length_alter.
Qed.

(** An iteration that throws has changed neither [rowsWithNodes] nor the
    node of any row. *)
Lemma serve_row_Throws fs fe rowNdx c (st st' : State Payload) :
  serve_row fs fe rowNdx c st = Throws st' ->
  rowsWithNodes st' = rowsWithNodes st
  /\ (forall i, node_of st' i = node_of st i)
  /\ length (data st') = length (data st).
Proof.
  unfold serve_row.
  destruct (data st !! rowNdx) as [row|] eqn:Hrow; [|by intros [= <-]].
  destruct (__node row) as [n0|] eqn:Hn0; [done|].
  destruct (rowsWithNodes st !! _) as [victim|]; [|by intros [= <-]].
  destruct (data st !! victim) as [vrow|]; [|by intros [= <-]].
  destruct (__node vrow) as [nd|]; [done|].
  intros [= <-]. split; [done|]. split.
  - intros i. unfold node_of; simpl.
    destruct (decide (i = rowNdx)) as [->|Hne].
    + by rewrite list_lookup_alter_eq, Hrow; simpl.
    + by rewrite list_lookup_alter_ne.
  - simpl. by rewrite length_alter.
Qed.

(** ** Consistency of the assignment *)

Lemma consistent_ext (st st' : State Payload) :
  rowsWithNodes st' = rowsWithNodes st ->
  (forall i, node_of st' i = node_of st i) ->
  consistent st -> consistent st'.
Proof.
  intros Hrwn Hnode (Hnd & Hmem & Hinj). unfold consistent. rewrite Hrwn.
  split; [done|]. split.
  - intros i. by rewrite Hnode.
  - intros i j nd. rewrite !Hnode. apply Hinj.
Qed.

Lemma serve_row_consistent fs fe rowNdx c (st st' : State Payload) c' :
  consistent st ->
  serve_row fs fe rowNdx c st = Done (st', c') ->
  consistent st'
  /\ length (rowsWithNodes st') = length (rowsWithNodes st)
  /\ length (data st') = length (data st).
Proof.
  intros (Hnd & Hmem & Hinj) Hserve.
  apply serve_row_Done in Hserve
    as [(_ & -> & _)|(j & victim & nd & row & Hrow & Hnone & _ & _ & _ & Hvictim
                      & _ & Hne & Hvnode & Hrwn & Hnode & _ & _ & Hlen)];
    [done|].
  assert (Hrownone : node_of st rowNdx = None).
  { unfold node_of. by rewrite Hrow. }
  assert (Hfresh : rowNdx ∉ rowsWithNodes st).
  { rewrite Hmem, Hrownone. by intros [? ?]. }
  assert (Hj : (j < length (rowsWithNodes st))%nat) by by eapply lookup_lt_Some.
  split; [|by rewrite Hrwn, length_insert].
  split; [|split].
  - rewrite Hrwn. apply NoDup_alt. intros a b x Ha Hb.
    apply list_lookup_insert_Some in Ha as [(-> & <- & _)|(Haj & Ha)];
      apply list_lookup_insert_Some in Hb as [(Hb1 & Hb2 & _)|(Hbj & Hb)].
    + done.
    + exfalso. apply Hfresh. by eapply list_elem_of_lookup_2.
    + subst. exfalso. apply Hfresh. by eapply list_elem_of_lookup_2.
    + by eapply NoDup_lookup.
  - intros i. rewrite Hnode, Hrwn. split.
    + intros [k Hk]%list_elem_of_lookup_1.
      apply list_lookup_insert_Some in Hk as [(-> & <- & _)|(Hkj & Hk)].
      * rewrite decide_False by done. by rewrite decide_True.
      * assert (i <> victim).
        { intros ->. apply Hkj. by eapply NoDup_lookup. }
        rewrite decide_False by done. destruct (decide (i = rowNdx)); [done|].
        apply Hmem. by eapply list_elem_of_lookup_2.
    + destruct (decide (i = victim)) as [->|Hiv]; [by intros [? ?]|].
      destruct (decide (i = rowNdx)) as [->|Hir].
      * intros _. by apply list_elem_of_insert.
      * intros [k Hk]%Hmem%list_elem_of_lookup_1.
        apply (list_elem_of_lookup_2 _ k).
        rewrite list_lookup_insert_ne; [done|]. intros <-. congruence.
  - intros a b x. rewrite !Hnode.
    destruct (decide (a = victim)); [done|].
    destruct (decide (b = victim)); [done|].
    destruct (decide (a = rowNdx)) as [->|Ha], (decide (b = rowNdx)) as [->|Hb];
      try done.
    + intros [= <-] Hb'. exfalso. eauto.
    + intros Ha' [= <-]. exfalso. eauto.
    + apply Hinj.
Qed.

Lemma recycle_consistent count fs fe : forall rowNdx c (st : State Payload),
  consistent st ->
  match recycle count fs fe rowNdx c st with
  | Done (st', _) | Throws st' =>
      consistent st'
      /\ length (rowsWithNodes st') = length (rowsWithNodes st)
      /\ length (data st') = length (data st)
  end.
Proof.
  induction count as [|count IH]; intros rowNdx c st Hcons; simpl; [done|].
  destruct (serve_row fs fe rowNdx c st) as [[st1 c1]|st1] eqn:Hserve.
  - destruct (serve_row_consistent _ _ _ _ _ _ _ Hcons Hserve) as (Hc1 & Hl1 & Hd1).
    specialize (IH (S rowNdx) c1 st1 Hc1).
    destruct (recycle count fs fe (S rowNdx) c1 st1) as [[st2 c2]|st2];
      destruct IH as (? & ? & ?); (split; [done|split; congruence]).
  - apply serve_row_Throws in Hserve as (Hrwn & Hnode & Hlen).
    split; [by eapply consistent_ext|]. by rewrite Hrwn, Hlen.
Qed.

Lemma updateVisibleRows_consistent (st : State Payload) :
  consistent st ->
  consistent (outcome_state (updateVisibleRows st))
  /\ length (rowsWithNodes (outcome_state (updateVisibleRows st)))
     = length (rowsWithNodes st)
  /\ length (data (outcome_state (updateVisibleRows st))) = length (data st).
Proof.
  intros Hcons.
  assert (Hentry : consistent (pass_entry st)) by done.
  pose proof (recycle_consistent
    (Z.to_nat (fillEnd st) - Z.to_nat (fillStart st))
    (Z.to_nat (fillStart st)) (Z.to_nat (fillEnd st))
    (Z.to_nat (fillStart st)) 0 (pass_entry st) Hentry) as Hpass.
  fold (pass st) in Hpass.
  destruct (updateVisibleRows_cases st)
    as [[_ ->]|[(_ & _ & ->)|[(_ & _ & st' & c & Hp & ->)
       |(_ & _ & st' & Hp & ->)]]]; simpl; try done.
  - by rewrite Hp in Hpass.
  - by rewrite Hp in Hpass.
Qed.

(** [reset] returns only from an empty container, with fuel to spare. *)
Lemma reset_Some_inv (st st' : State Payload) fuel :
  reset heightFn fuel st = Some st' -> children (el st) = [] /\ (0 < fuel)%nat.
Proof.
  intros Hreset. split.
  - destruct (children (el st)) as [|c cs] eqn:Hch; [done|].
    rewrite reset_needs_empty_container in Hreset; [done|]. by rewrite Hch.
  - destruct fuel; [|lia]. unfold reset in Hreset. done.
Qed.

Lemma reset_consistent (st st' : State Payload) fuel :
  reset heightFn fuel st = Some st' ->
  consistent st'
  /\ length (rowsWithNodes st')
     = Z.to_nat (Z.min (availableNodes st') (Z.of_nat (length (data st')))).
Proof.
  intros Hreset.
  destruct (reset_Some_inv _ _ _ Hreset) as [Hempty Hfuel].
  destruct (reset_spec fuel st Hempty Hfuel)
    as (st'' & Hreset' & Hdata & Hrwn & _ & _ & _ & _ & _ & _ & Hav).
  rewrite Hreset in Hreset'. injection Hreset' as <-.
  set (d := (calculateHeights heightFn (data st)).1) in *.
  set (k := Z.to_nat _) in *.
  assert (Hlen : length d = length (data st)) by apply calculateHeights_loop_length.
  assert (Hlen' : length (data st') = length (data st)).
  { rewrite <- Hlen. apply Nat.le_antisymm.
    - destruct (decide (length (data st') <= length d)%nat); [done|].
      destruct (lookup_lt_is_Some_2 (data st') (length d)) as [r Hr]; [lia|].
      rewrite Hdata, lookup_ge_None_2 in Hr by lia. done.
    - destruct (decide (length d <= length (data st'))%nat); [done|].
      destruct (lookup_lt_is_Some_2 d (length (data st'))) as [r Hr]; [lia|].
      pose proof (Hdata (length (data st'))) as Hx.
      rewrite Hr, lookup_ge_None_2 in Hx by lia. done. }
  assert (Hnode : forall i, node_of st' i =
            if decide (i < k)%nat then Some (length (heap st) + i)%nat else None).
  { intros i. unfold node_of. rewrite Hdata.
    destruct (d !! i) as [r|] eqn:Hr; simpl.
    - destruct (decide (i < k)%nat).
      + by rewrite bool_decide_eq_true_2.
      + by rewrite bool_decide_eq_false_2.
    - apply lookup_ge_None in Hr. rewrite decide_False; [done|]. subst k. lia. }
  split; [|rewrite Hrwn, length_seq, Hav, Hlen'; done].
  split; [|split].
  - rewrite Hrwn. apply NoDup_seq.
  - intros i. rewrite Hrwn, elem_of_seq, Hnode.
    destruct (decide (i < k)%nat).
    + split; [by eauto|lia].
    + split; [lia|by intros [? ?]].
  - intros i j nd. rewrite !Hnode.
    destruct (decide (i < k)%nat), (decide (j < k)%nat); try done.
    intros [= <-] [= ?]. lia.
Qed.

(** Every state of a table in use is consistent and has all the nodes
    that [reset] built assigned. *)
Lemma reachable_consistent (st : State Payload) :
  reachable heightFn st ->
  consistent st
  /\ length (rowsWithNodes st)
     = Z.to_nat (Z.min (availableNodes st) (Z.of_nat (length (data st)))).
Proof.
  induction 1 as [fuel st st' Hreset|y st _ IH|st _ [IHc IHl]].
  - by eapply reset_consistent.
  - done.
  - destruct (updateVisibleRows_consistent st IHc) as (Hc & Hl & Hd).
    destruct (updateVisibleRows_frame st) as (_ & _ & Ha).
    split; [done|]. by rewrite Hl, Hd, Ha.
Qed.

(** In a consistent state the rows that hold a node are as many as
    [rowsWithNodes] is long. *)
Lemma assigned_rowsWithNodes (st : State Payload) :
  consistent st ->
  (forall i, i ∈ assigned st <-> i ∈ rowsWithNodes st)
  /\ length (assigned st) = length (rowsWithNodes st).
Proof.
  intros (Hnd & Hmem & _).
  assert (Hiff : forall i, i ∈ assigned st <-> i ∈ rowsWithNodes st).
  { intros i. unfold assigned. rewrite list_elem_of_filter, elem_of_seq, Hmem.
    split; [tauto|]. intros Hs. split; [done|].
    destruct Hs as [nd Hs]. unfold node_of in Hs.
    destruct (data st !! i) as [r|] eqn:Hr; [|done].
    apply lookup_lt_Some in Hr. lia. }
  split; [done|].
  apply Permutation_length, NoDup_Permutation; [|done|done].
  apply NoDup_filter, NoDup_seq.
Qed.

(** ** What a pass does to the window and to [rowsWithNodes] *)

(** Once the loop has passed a row strictly inside the window, the row
    holds a node and keeps it until the pass ends. *)
Lemma recycle_window count fs fe : forall rowNdx c (st st' : State Payload) c',
  recycle count fs fe rowNdx c st = Done (st', c') ->
  (rowNdx + count <= fe)%nat ->
  (forall i, (fs < i < rowNdx)%nat -> is_Some (node_of st i)) ->
  forall i, (fs < i < rowNdx + count)%nat -> is_Some (node_of st' i).
Proof.
  induction count as [|count IH]; intros rowNdx c st st' c' Hrec Hfe Hbefore;
    simpl in Hrec.
  { injection Hrec as <- <-. intros i Hi. apply Hbefore. lia. }
  destruct (serve_row fs fe rowNdx c st) as [[st1 c1]|st1] eqn:Hserve; [|done].
  intros i Hi. apply (IH (S rowNdx) c1 st1 st' c' Hrec); [lia| |lia].
  clear i Hi. intros i Hi.
  apply serve_row_Done in Hserve
    as [(Hsome & -> & _)|(j & victim & nd & row & _ & _ & _ & _ & _ & _
                      & Hout & _ & _ & _ & Hnode & _)].
  - destruct (decide (i = rowNdx)) as [->|Hne]; [done|]. apply Hbefore. lia.
  - rewrite Hnode.
    destruct (decide (i = victim)) as [->|_].
    { exfalso. apply Hout. split; lia. }
    destruct (decide (i = rowNdx)) as [->|Hne]; [by eauto|].
    apply Hbefore. lia.
Qed.

(** The slots the cursor went over, from where it started to where it
    stopped: each held a row strictly inside the window and was kept, or
    held another row and was given to the row being served.  No other slot
    is touched. *)
Lemma recycle_slots count fs fe : forall rowNdx c (st st' : State Payload) c',
  recycle count fs fe rowNdx c st = Done (st', c') ->
  (c <= c')%nat
  /\ (forall j, (j < c \/ c' <= j)%nat ->
        rowsWithNodes st' !! j = rowsWithNodes st !! j)
  /\ (forall j, (c <= j < c')%nat ->
        exists r, rowsWithNodes st !! j = Some r
          /\ ((strictly_inside fs fe r /\ rowsWithNodes st' !! j = Some r)
              \/ (~ strictly_inside fs fe r /\ rowsWithNodes st' !! j <> Some r))).
Proof.
  induction count as [|count IH]; intros rowNdx c st st' c' Hrec; simpl in Hrec.
  { injection Hrec as <- <-. split; [lia|]. split; [done|]. intros j Hj. lia. }
  destruct (serve_row fs fe rowNdx c st) as [[st1 c1]|st1] eqn:Hserve; [|done].
  destruct (IH _ _ _ _ _ Hrec) as (Hle & Hsame & Hover).
  apply serve_row_Done in Hserve
    as [(_ & -> & ->)|(j0 & victim & nd & row & _ & _ & Hcj & -> & Hskip & Hvictim
                      & Hout & Hne & _ & Hrwn & _)].
  { done. }
  assert (Hj0 : (j0 < length (rowsWithNodes st))%nat) by by eapply lookup_lt_Some.
  split; [lia|]. split.
  - intros j Hj. rewrite Hsame by lia. rewrite Hrwn.
    apply list_lookup_insert_ne. lia.
  - intros j Hj. destruct (decide (j < j0)%nat) as [Hlt|Hge].
    + destruct (Hskip j) as (r & Hr & Hin); [lia|].
      exists r. split; [done|]. left. split; [done|].
      rewrite Hsame by lia. rewrite Hrwn, list_lookup_insert_ne by lia. done.
    + destruct (decide (j = j0)) as [->|Hne0].
      * exists victim. split; [done|]. right. split; [done|].
        rewrite Hsame by lia. rewrite Hrwn, list_lookup_insert_eq by done.
        congruence.
      * destruct (Hover j) as (r & Hr & Hcase); [lia|].
        rewrite Hrwn, list_lookup_insert_ne in Hr by lia.
        by exists r.
Qed.

(** ** When the pass returns *)

Lemma filter_ext_elem_of {A} (P1 P2 : A -> Prop)
    `{!forall x, Decision (P1 x), !forall x, Decision (P2 x)} (l : list A) :
  (forall x, x ∈ l -> (P1 x <-> P2 x)) -> filter P1 l = filter P2 l.
Proof.
  induction l as [|a l IH]; intros Hiff; [done|].
  assert (Ha : P1 a <-> P2 a) by (apply Hiff; left).
  assert (Hl : filter P1 l = filter P2 l).
  { apply IH. intros x Hx. apply Hiff. by right. }
  destruct (decide (P1 a)).
  - rewrite !filter_cons_True by tauto. by rewrite Hl.
  - rewrite !filter_cons_False by tauto. done.
Qed.

Lemma length_filter_complement {A} (P : A -> Prop) `{!forall x, Decision (P x)}
    (l : list A) :
  (length (filter P l) + length (filter (fun x => ~ P x) l) = length l)%nat.
Proof. by rewrite <- length_app, filter_app_complement. Qed.

(** The scan passes over no free slot, and stops on one unless it runs off
    the end with none left. *)
Lemma free_slots_scan fuel fs fe (rwn : list nat) c :
  (length rwn <= c + fuel)%nat ->
  let j := scan fuel rwn fs fe c in
  match rwn !! j with
  | Some _ => free_slots fs fe rwn c = S (free_slots fs fe rwn (S j))
  | None => free_slots fs fe rwn c = 0%nat
  end.
Proof.
  revert c. induction fuel as [|fuel IH]; intros c Hfuel; simpl.
  { rewrite lookup_ge_None_2 by lia. unfold free_slots. by rewrite drop_ge by lia. }
  destruct (rwn !! c) as [r|] eqn:Hr.
  2:{ rewrite Hr. unfold free_slots. rewrite drop_ge; [done|].
      by apply lookup_ge_None. }
  assert (Hdrop : free_slots fs fe rwn c
    = ((if decide (strictly_inside fs fe r) then 0 else 1)
       + free_slots fs fe rwn (S c))%nat).
  { unfold free_slots. rewrite (drop_S _ _ _ Hr), filter_cons.
    destruct (decide (strictly_inside fs fe r)) as [Hin|Hout].
    - by rewrite decide_False by tauto.
    - by rewrite decide_True by done. }
  destruct ((fs <? r)%nat && (r <? fe)%nat) eqn:Hin.
  - apply andb_true_iff in Hin as [H1%Nat.ltb_lt H2%Nat.ltb_lt].
    rewrite decide_True in Hdrop by done. rewrite Hdrop. simpl.
    apply IH. lia.
  - rewrite Hr. rewrite decide_False in Hdrop; [done|].
    intros [H1 H2].
    apply andb_false_iff in Hin as [Hin|Hin]; apply Nat.ltb_ge in Hin; lia.
Qed.

(** A row without a node gets one when the scan finds a slot whose row
    holds a node. *)
Lemma serve_row_steals fs fe rowNdx c (st : State Payload) row victim nd :
  data st !! rowNdx = Some row -> __node row = None ->
  let j := scan (length (rowsWithNodes st)) (rowsWithNodes st) fs fe c in
  rowsWithNodes st !! j = Some victim ->
  node_of st victim = Some nd ->
  exists st1, serve_row fs fe rowNdx c st = Done (st1, S j)
    /\ rowsWithNodes st1 = <[j := rowNdx]> (rowsWithNodes st)
    /\ (forall i, i <> victim -> i <> rowNdx -> node_of st1 i = node_of st i)
    /\ length (data st1) = length (data st).
Proof.
  intros Hrow Hnone j Hvictim Hnd. unfold serve_row. rewrite Hrow, Hnone.
  fold j. rewrite Hvictim.
  unfold node_of in Hnd.
  destruct (data st !! victim) as [vrow|] eqn:Hvrow; [|done]. simpl in Hnd.
  rewrite Hnd. eexists. split; [reflexivity|]. split; [done|]. split.
  - intros i Hiv Hir. unfold node_of; simpl.
    by rewrite !list_lookup_alter_ne by done.
  - simpl. by rewrite !length_alter.
Qed.

(** The loop returns when there are at least as many free slots ahead of
    the cursor as there are rows ahead that lack a node. *)
Lemma recycle_returns fs fe count : forall rowNdx c (st : State Payload),
  consistent st ->
  (fs <= rowNdx)%nat -> (rowNdx + count <= fe)%nat ->
  (fe <= length (data st))%nat ->
  (lacking st rowNdx count <= free_slots fs fe (rowsWithNodes st) c)%nat ->
  exists st' c', recycle count fs fe rowNdx c st = Done (st', c').
Proof.
  induction count as [|count IH]; intros rowNdx c st Hcons Hfs Hfe Hlen Hfree;
    simpl; [by eauto|].
  destruct (lookup_lt_is_Some_2 (data st) rowNdx) as [row Hrow]; [lia|].
  assert (Hseq : seq rowNdx (S count) = rowNdx :: seq (S rowNdx) count) by done.
  unfold lacking in Hfree. rewrite Hseq in Hfree.
  destruct (__node row) as [n0|] eqn:Hn0.
  - assert (Hserve : serve_row fs fe rowNdx c st = Done (st, c)).
    { unfold serve_row. by rewrite Hrow, Hn0. }
    rewrite Hserve. apply IH; [done|lia|lia|done|].
    rewrite filter_cons_False in Hfree; [done|].
    intros Hno. apply Hno. unfold node_of. rewrite Hrow. simpl. by rewrite Hn0.
  - rewrite filter_cons_True in Hfree.
    2:{ unfold node_of. rewrite Hrow. simpl. rewrite Hn0. by intros [? ?]. }
    simpl in Hfree.
    pose proof (free_slots_scan (length (rowsWithNodes st)) fs fe
                  (rowsWithNodes st) c) as Hscan.
    destruct (scan_spec (length (rowsWithNodes st)) (rowsWithNodes st) fs fe c)
      as (_ & _ & Hstop); [lia|].
    cbv zeta in Hscan. set (j := scan _ _ _ _ _) in *.
    destruct (rowsWithNodes st !! j) as [victim|] eqn:Hvictim; [|lia].
    specialize (Hscan ltac:(lia)). specialize (Hstop _ eq_refl).
    destruct Hcons as (Hnd & Hmem & Hinj).
    destruct (proj1 (Hmem victim)) as [nd Hvnd].
    { by eapply list_elem_of_lookup_2. }
    destruct (serve_row_steals fs fe rowNdx c st row victim nd Hrow Hn0 Hvictim Hvnd)
      as (st1 & Hserve & Hrwn1 & Hnode1 & Hlen1).
    rewrite Hserve.
    destruct (serve_row_consistent _ _ _ _ _ _ _ (conj Hnd (conj Hmem Hinj)) Hserve)
      as (Hcons1 & _ & _).
    apply IH; [done|lia|lia|lia|].
    rewrite Hrwn1. unfold free_slots at 1. rewrite drop_insert_lt by lia.
    unfold lacking.
    rewrite (filter_ext_elem_of _ (fun i => ~ is_Some (node_of st i))).
    { unfold free_slots in Hscan, Hfree. subst j. lia. }
    intros i Hi%elem_of_seq. rewrite Hnode1; [done| |lia].
    intros ->. apply Hstop. split; lia.
Qed.

(** Rows of the window that lack a node are never more than the free
    slots when the window is no larger than [rowsWithNodes]. *)
Lemma lacking_le_free_slots fs fe (st : State Payload) :
  consistent st -> (fs <= fe)%nat ->
  (fe - fs <= length (rowsWithNodes st))%nat ->
  (lacking st fs (fe - fs) <= free_slots fs fe (rowsWithNodes st) 0)%nat.
Proof.
  intros (Hnd & Hmem & _) Hle Hfit.
  pose proof (length_filter_complement (fun i => is_Some (node_of st i))
                (seq fs (fe - fs))) as Hrows.
  pose proof (length_filter_complement (strictly_inside fs fe)
                (rowsWithNodes st)) as Hslots.
  rewrite length_seq in Hrows.
  assert (Hsub : (length (filter (strictly_inside fs fe) (rowsWithNodes st))
            <= length (filter (fun i => is_Some (node_of st i)) (seq fs (fe - fs))))%nat).
  { apply submseteq_length, NoDup_submseteq; [by apply NoDup_filter|].
    intros x [[H1 H2] Hx]%list_elem_of_filter.
    apply list_elem_of_filter. split; [by apply Hmem|].
    apply elem_of_seq. lia. }
  unfold lacking, free_slots. rewrite drop_0. lia.
Qed.

Lemma pass_returns (st : State Payload) :
  consistent st ->
  (Z.to_nat (fillEnd st) - Z.to_nat (fillStart st) <= length (rowsWithNodes st))%nat ->
  exists st' c, pass st = Done (st', c).
Proof.
  intros Hcons Hfit. unfold pass.
  set (fs := Z.to_nat (fillStart st)) in *. set (fe := Z.to_nat (fillEnd st)) in *.
  destruct (decide (fs <= fe)%nat) as [Hle|Hgt].
  - apply recycle_returns; [done|lia|lia| |].
    + change (data (pass_entry st)) with (data st). subst fe. unfold fillEnd. lia.
    + by apply (lacking_le_free_slots fs fe (pass_entry st)).
  - replace (fe - fs)%nat with 0%nat by lia. simpl. by eauto.
Qed.

Lemma ceil_half_even (a : Z) : Z.even a = true -> (2 * ceil_half a = a)%Z.
Proof.
  intros [q ->]%Z.even_spec.
  destruct (ceil_half_spec (2 * q)) as [H1 H2]. specialize (H2 q). lia.
Qed.

(** With an even number of nodes the window is never larger than the
    pool, and the handler returns from every state of a table in use. *)
Lemma updateVisibleRows_returns (st : State Payload) :
  reachable heightFn st ->
  Z.even (availableNodes st) = true -> (0 <= availableNodes st)%Z ->
  exists st', updateVisibleRows st = Done st'.
Proof.
  intros Hreach Heven Hnn.
  destruct (reachable_consistent st Hreach) as [Hcons Hlen].
  destruct (pass_returns st Hcons) as (st1 & c & Hpass).
  { rewrite Hlen. unfold fillEnd, fillStart.
    pose proof (ceil_half_even _ Heven). lia. }
  destruct (updateVisibleRows_cases st)
    as [[_ ->]|[(_ & _ & ->)|[(_ & _ & st' & c' & _ & ->)
       |(_ & _ & st' & Hp & _)]]]; eauto.
  congruence.
Qed.

End Properties.

(** C6.  For a viewport and rows whose offsets ascend, the handler's
    midpoint is (top + bottom) / 2 with bottom = top + client height,
    [midNdx] is the lower-bound insertion point of the midpoint (the first
    index whose offset is at least the midpoint), [fillStart] is
    max(0, midNdx - ceil(availableNodes / 2)) and [fillEnd] is
    min(row count, midNdx + ceil(availableNodes / 2)).  With 1000 rows of
    height 10, 100 nodes, a viewport 400 high and scroll top 5000 this
    gives midNdx 520 and the window from 470 to 570. *)
Theorem window_locator {Payload : Type} (st : State Payload) :
  ascending (data st) ->
  let top := scrollTop (el st) in
  let bottom := scrollTop (el st) + clientHeight (el st) in
  let half := ceil_half (availableNodes st) in
  screenMidpoint st = (top + bottom) / 2
  /\ lower_bound (data st) ((top + bottom) / 2) (midNdx st)
  /\ (forall k, lower_bound (data st) ((top + bottom) / 2) k -> k = midNdx st)
  /\ (availableNodes st <= 2 * half)%Z
  /\ (forall k, availableNodes st <= 2 * k -> half <= k)%Z
  /\ fillStart st = Z.max 0 (Z.of_nat (midNdx st) - half)
  /\ fillEnd st = Z.min (Z.of_nat (length (data st))) (Z.of_nat (midNdx st) + half)
  /\ after_reset 1000 100 (fun t =>
       let t := scrollTo 5000 t in
       clientHeight (el t) = 400 /\ screenMidpoint t == 5200
       /\ midNdx t = 520%nat /\ fillStart t = 470%Z /\ fillEnd t = 570%Z).
Proof.
  intros Hasc top bottom half.
  pose proof (sortedIndex_lower_bound (data st) (screenMidpoint st) Hasc) as Hlb.
  split; [done|]. split; [exact Hlb|].
  split. { intros k Hk. by eapply lower_bound_unique. }
  split; [apply ceil_half_spec|]. split; [apply ceil_half_spec|].
  split; [done|]. split; [done|].
  vm_compute. repeat split; congruence.
Qed.

Lemma window_locator_witness :
  ascending (data (scrollTo 40 (constructed 30 4)))
  /\ lower_bound (data (scrollTo 40 (constructed 30 4))) ((40 + (40 + 400)) / 2)
       (midNdx (scrollTo 40 (constructed 30 4))).
Proof.
  split.
  - apply ascendingb_sound. vm_compute. reflexivity.
  - assert (Hasc : ascending (data (scrollTo 40 (constructed 30 4)))).
    { apply ascendingb_sound. vm_compute. reflexivity. }
    pose proof (window_locator (scrollTo 40 (constructed 30 4)) Hasc) as Hw.
    cbv zeta in Hw. destruct Hw as (_ & Hlb & _). exact Hlb.
Defined.

(** C8.  On an empty container, [reset] with n rows and p available nodes
    returns, having called [buildRow] exactly min(p, n) times, once for each
    of the rows 0 .. min(p, n) - 1 in order; these rows and no others hold a
    node, each node placed at its row's offset as [calculateHeights]
    computed it, and the bottom element is placed at the total height.
    With 1000 rows of height 10 and 100 nodes the rows 0-99 are assigned at
    positions index * 10 and the bottom element is at 10000; with 3 rows
    and 5 nodes only 3 nodes are built. *)
Theorem reset_builds_pool {Payload : Type} (heightFn : Row Payload -> Q)
    (st : State Payload) (fuel : nat) :
  children (el st) = [] -> (0 < fuel)%nat -> (0 <= availableNodes st)%Z ->
  (exists st', reset heightFn fuel st = Some st'
    /\ let k := length (rowsWithNodes st') in
       let h0 := length (heap st) in
       Z.of_nat k = Z.min (availableNodes st) (Z.of_nat (length (data st)))
       /\ calls st' = calls st ++ ((fun i => BuildRow i (h0 + i)%nat) <$> seq 0 k)
       /\ rowsWithNodes st' = seq 0 k
       /\ __top <$> data st' = __top <$> (calculateHeights heightFn (data st)).1
       /\ (forall i r, data st' !! i = Some r -> (i < k)%nat ->
             __node r = Some (h0 + i)%nat
             /\ heap st' !! (h0 + i)%nat = Some (mkDomNode (Some (__top r))))
       /\ (forall i r, data st' !! i = Some r -> (k <= i)%nat -> __node r = None)
       /\ totalHeight st' = (calculateHeights heightFn (data st)).2
       /\ exists b, bottomEl st' = Some b
            /\ heap st' !! b = Some (mkDomNode (Some (totalHeight st'))))
  /\ after_reset 1000 100 (fun t =>
       rowsWithNodes t = seq 0 100
       /\ position t <$> seq 0 100
          = (fun i => Some (inject_Z (Z.of_nat i * 10))) <$> seq 0 100
       /\ node_of t <$> seq 100 900 = replicate 900 None
       /\ length (filter is_build (calls t)) = 100%nat
       /\ (b ← bottomEl t; n ← heap t !! b; style_top n) = Some 10000)
  /\ after_reset 3 5 (fun t =>
       calls t = [BuildRow 0 0; BuildRow 1 1; BuildRow 2 2]%nat
       /\ rowsWithNodes t = [0; 1; 2]%nat
       /\ length (heap t) = 4%nat).
Proof.
  intros Hempty Hfuel Hnn. split; [|split; vm_compute; by repeat split].
  destruct (reset_spec heightFn fuel st Hempty Hfuel)
    as (st' & Hreset & Hdata & Hrwn & Hheap & Hcalls & Hch & Hbot & Htot & _).
  set (d := (calculateHeights heightFn (data st)).1) in *.
  set (k0 := Z.to_nat _) in *.
  assert (Hlen : length d = length (data st)) by apply calculateHeights_loop_length.
  exists st'. split; [exact Hreset|]. cbv zeta.
  assert (Hk : length (rowsWithNodes st') = k0) by (by rewrite Hrwn, length_seq).
  rewrite Hk.
  split. { subst k0. lia. }
  split; [exact Hcalls|]. split; [exact Hrwn|].
  split.
  { apply list_eq. intros i. rewrite !list_lookup_fmap, Hdata.
    by destruct (d !! i). }
  split.
  { intros i r Hr Hi. rewrite Hdata in Hr.
    destruct (d !! i) as [r0|] eqn:Hr0; simplify_eq/=.
    rewrite bool_decide_eq_true_2 by done. split; [done|].
    rewrite Hheap, lookup_app_r by lia.
    replace (length (heap st) + i - length (heap st))%nat with i by lia.
    rewrite lookup_app_l by (rewrite length_fmap, length_take; lia).
    by rewrite list_lookup_fmap, lookup_take_lt, Hr0 by done. }
  split.
  { intros i r Hr Hi. rewrite Hdata in Hr.
    destruct (d !! i) as [r0|] eqn:Hr0; simplify_eq/=.
    by rewrite bool_decide_eq_false_2 by lia. }
  split; [exact Htot|].
  eexists. split; [exact Hbot|].
  rewrite Hheap, lookup_app_r by lia.
  rewrite lookup_app_r by (rewrite length_fmap, length_take; lia).
  rewrite length_fmap, length_take, Htot.
  replace (_ - _ - _)%nat with 0%nat; [done|].
  subst k0. lia.
Qed.

Lemma reset_builds_pool_witness :
  exists st', reset height10 1 (fresh_table 3 5) = Some st'
    /\ rowsWithNodes st' = seq 0 (length (rowsWithNodes st'))
    /\ Z.of_nat (length (rowsWithNodes st')) = Z.min 5 3.
Proof.
  destruct (reset_builds_pool height10 (fresh_table 3 5) 1)
    as [(st' & Hreset & Hk & _ & Hrwn & _) _];
    [reflexivity | lia | simpl; lia |].
  exists st'. split; [exact Hreset|]. split; [exact Hrwn|]. exact Hk.
Defined.

(** C7, which the code does not meet.  On the table that the constructor
    leaves for 3 rows and 5 available nodes, a further call of [reset]
    does not return, whatever the number of iterations granted to the loop
    of line 58: the container holds the row nodes and the bottom element,
    and [el.remove(...)] removes none of them.  So [reset] cannot be
    called twice, and is not idempotent. *)
Theorem reset_again_never_returns :
  after_reset 3 5 (fun t =>
    children (el t) = [0; 1; 2; 3]%nat
    /\ forall fuel, reset height10 fuel t = None).
Proof.
  unfold after_reset.
  destruct (reset height10 1 (fresh_table 3 5)) as [t|] eqn:Hreset;
    [|by vm_compute in Hreset].
  split.
  - vm_compute in Hreset. by injection Hreset as <-.
  - by eapply reset_after_reset.
Qed.

Lemma calculateHeights_offsets_witness :
  (forall r : Row unit, 0 <= height10 r)
  /\ (calculateHeights height10 (replicate 3 (mkRow tt 0 None))).2 = 30
  /\ ascending (calculateHeights height10 (replicate 3 (mkRow tt 0 None))).1.
Proof.
  assert (Hnn : forall r : Row unit, 0 <= height10 r) by (intros r; by vm_compute).
  split; [exact Hnn|]. split; [reflexivity|].
  destruct (calculateHeights_offsets height10 (replicate 3 (mkRow tt 0 None)))
    as (_ & _ & _ & _ & _ & Hmono).
  exact (Hmono Hnn).
Defined.

Lemma same_midNdx_is_noop_witness :
  midNdx (scrollTo 5000 (constructed 1000 100))
    = midNdx (scrollTo 4995 (constructed 1000 100))
  /\ updateVisibleRows (scrollTo 5000 (outcome_state
            (updateVisibleRows (scrollTo 4995 (constructed 1000 100)))))
     = Done (scrollTo 5000 (outcome_state
            (updateVisibleRows (scrollTo 4995 (constructed 1000 100))))).
Proof.
  pose proof (same_midNdx_is_noop (constructed 1000 100) 4995 5000) as Hnoop.
  cbv zeta in Hnoop.
  assert (Hmid : midNdx (scrollTo 5000 (constructed 1000 100))
                 = midNdx (scrollTo 4995 (constructed 1000 100)))
    by (vm_compute; reflexivity).
  split; [exact Hmid|]. exact (proj1 (Hnoop Hmid)).
Defined.

(** C10.  A run of the scroll handler that starts with the guard clear
    and returns, leaves the guard clear: on the fast path, which always
    returns, and after a completed recycle pass alike; on a table in use
    with an even number of nodes every run returns.  The notification that
    follows is therefore not dropped at the guard: it resolves its
    [midNdx] and records it. *)
Theorem guard_released {Payload : Type} (heightFn : Row Payload -> Q)
    (st : State Payload) :
  isUpdating st = false ->
  (lastMidNdx st = Some (midNdx st) -> updateVisibleRows st = Done st)
  /\ (reachable heightFn st ->
      Z.even (availableNodes st) = true -> (0 <= availableNodes st)%Z ->
      exists st', updateVisibleRows st = Done st')
  /\ (forall st', updateVisibleRows st = Done st' ->
        isUpdating st' = false
        /\ forall y,
             lastMidNdx (outcome_state (updateVisibleRows (scrollTo y st')))
             = Some (midNdx (scrollTo y st'))).
Proof.
  intros Hup. split; [|split].
  - intros Hlast.
    destruct (updateVisibleRows_cases st)
      as [[Hc _]|[(_ & _ & ->)|[(_ & Hne & _)|(_ & Hne & _)]]];
      [congruence|done|done|done].
  - apply updateVisibleRows_returns.
  - intros st' Hdone.
    destruct (updateVisibleRows_guard st Hup) as [_ Hflag].
    rewrite Hdone in Hflag. split; [exact Hflag|].
    intros y. by apply updateVisibleRows_guard.
Qed.

Lemma guard_released_witness :
  isUpdating scenarioA_at_5000 = false
  /\ updateVisibleRows scenarioA_at_5000 = Done (after_scroll 5000 (constructed 1000 100))
  /\ isUpdating (after_scroll 5000 (constructed 1000 100)) = false.
Proof.
  assert (Hup : isUpdating scenarioA_at_5000 = false) by (vm_compute; reflexivity).
  assert (Hdone : updateVisibleRows scenarioA_at_5000
                  = Done (after_scroll 5000 (constructed 1000 100)))
    by (vm_compute; reflexivity).
  split; [exact Hup|]. split; [exact Hdone|].
  exact (proj1 (proj2 (proj2 (guard_released height10 scenarioA_at_5000 Hup)) _ Hdone)).
Defined.

(** C1 as stated fails on Scenario A: at the first notification, with the
    container scrolled to 100, the window is 0 .. 80; the pass is not
    skipped and returns, and the 100 rows 0 .. 99 still hold their nodes,
    which is neither min(80, 100) rows nor a subset of the window. *)
Lemma bijection_as_stated_fails :
  isUpdating scenarioA_at_100 = false
  /\ lastMidNdx scenarioA_at_100 <> Some (midNdx scenarioA_at_100)
  /\ fillStart scenarioA_at_100 = 0%Z /\ fillEnd scenarioA_at_100 = 80%Z
  /\ updateVisibleRows scenarioA_at_100 = Done (after_scroll 100 (constructed 1000 100))
  /\ assigned (after_scroll 100 (constructed 1000 100)) = seq 0 100
  /\ ~ bijection_as_stated scenarioA_at_100 (after_scroll 100 (constructed 1000 100)).
Proof.
  split; [by vm_compute|]. split; [by vm_compute|].
  split; [by vm_compute|]. split; [by vm_compute|].
  split; [by vm_compute|]. split; [by vm_compute|].
  intros [Hsize _]. vm_compute in Hsize. discriminate.
Qed.

(** C1, amended.  After a recycle pass of a table in use that is not
    skipped and returns, the rows that hold a node are as many as [reset]
    built nodes, min(availableNodes, row count), whatever the size of the
    window; they are the rows that [rowsWithNodes] lists; every row
    strictly inside the window (fillStart < index < fillEnd) holds a node;
    and no node is held by two rows. *)
Theorem recycle_pass_assignment {Payload : Type} (heightFn : Row Payload -> Q)
    (st st' : State Payload) :
  reachable heightFn st ->
  isUpdating st = false ->
  lastMidNdx st <> Some (midNdx st) ->
  updateVisibleRows st = Done st' ->
  length (assigned st')
    = Z.to_nat (Z.min (availableNodes st) (Z.of_nat (length (data st))))
  /\ (forall i, i ∈ assigned st' <-> i ∈ rowsWithNodes st')
  /\ (forall i, (fillStart st < Z.of_nat i < fillEnd st)%Z -> is_Some (node_of st' i))
  /\ (forall i j nd, node_of st' i = Some nd -> node_of st' j = Some nd -> i = j).
Proof.
  intros Hreach Hup Hlast Hdone.
  destruct (reachable_consistent heightFn st Hreach) as [Hcons Hlen].
  destruct (updateVisibleRows_consistent st Hcons) as (Hcons' & Hlen' & Hdata').
  rewrite Hdone in Hcons', Hlen', Hdata'. simpl in Hcons', Hlen', Hdata'.
  destruct (assigned_rowsWithNodes st' Hcons') as [Hiff Hsize].
  split; [by rewrite Hsize, Hlen', Hlen|]. split; [exact Hiff|].
  split; [|by destruct Hcons' as (_ & _ & Hinj)].
  intros i Hi.
  destruct (updateVisibleRows_cases st)
    as [[Hc _]|[(_ & Hfast & _)|[(_ & _ & st1 & c & Hpass & Hres)
       |(_ & _ & st1 & _ & Hres)]]]; [congruence|done| |congruence].
  rewrite Hdone in Hres. injection Hres as ->.
  change (node_of (with_isUpdating st1 false) i) with (node_of st1 i).
  unfold pass in Hpass.
  eapply (recycle_window _ _ _ _ _ _ _ _ Hpass); [lia|lia|].
  unfold fillStart in *. lia.
Qed.

Lemma recycle_pass_assignment_witness :
  reachable height10 scenarioA_at_5000
  /\ isUpdating scenarioA_at_5000 = false
  /\ lastMidNdx scenarioA_at_5000 <> Some (midNdx scenarioA_at_5000)
  /\ updateVisibleRows scenarioA_at_5000 = Done (after_scroll 5000 (constructed 1000 100))
  /\ length (assigned (after_scroll 5000 (constructed 1000 100)))
     = Z.to_nat (Z.min (availableNodes scenarioA_at_5000)
                       (Z.of_nat (length (data scenarioA_at_5000)))).
Proof.
  assert (Hreach : reachable height10 scenarioA_at_5000).
  { apply reachable_scrollTo.
    apply (reachable_reset height10 1 (fresh_table 1000 100)).
    vm_compute. reflexivity. }
  assert (Hup : isUpdating scenarioA_at_5000 = false) by (vm_compute; reflexivity).
  assert (Hlast : lastMidNdx scenarioA_at_5000 <> Some (midNdx scenarioA_at_5000))
    by (vm_compute; discriminate).
  assert (Hdone : updateVisibleRows scenarioA_at_5000
                  = Done (after_scroll 5000 (constructed 1000 100)))
    by (vm_compute; reflexivity).
  split; [exact Hreach|]. split; [exact Hup|]. split; [exact Hlast|].
  split; [exact Hdone|].
  exact (proj1 (recycle_pass_assignment height10 _ _ Hreach Hup Hlast Hdone)).
Defined.

(** C3 as stated fails with 4 nodes: the pass at scroll position 20 takes
    the slots 0 to 3 and ends with the cursor at 4; the next pass, at 40,
    gives the slots 0 and 1 to the rows 24 and 25.  Its scan started at
    slot 0 again; resumed at 4 it would have run off the end of
    [rowsWithNodes]. *)
Lemma cursor_persists_as_stated_fails :
  pass four_nodes_at_20 = Done (pass_result four_nodes_at_20)
  /\ (pass_result four_nodes_at_20).2 = 4%nat
  /\ rowsWithNodes (pass_result four_nodes_at_20).1 = [20; 21; 22; 23]%nat
  /\ rowsWithNodes (after_scroll 40 (after_scroll 20 (constructed 1000 4)))
     = [24; 25; 22; 23]%nat
  /\ changed_slots (pass_result four_nodes_at_20).1
       (after_scroll 40 (after_scroll 20 (constructed 1000 4))) = [0; 1]%nat
  /\ ~ cursor_persists_as_stated four_nodes_at_20 40.
Proof.
  split; [by vm_compute|]. split; [by vm_compute|].
  split; [by vm_compute|]. split; [by vm_compute|]. split; [by vm_compute|].
  intros Hclaim.
  assert (H1 : pass four_nodes_at_20 = Done ((pass_result four_nodes_at_20).1, 4%nat))
    by (vm_compute; reflexivity).
  specialize (Hclaim _ _ H1). cbv zeta in Hclaim.
  apply (f_equal returned) in Hclaim.
  set (next := scrollTo 40 (with_isUpdating (pass_result four_nodes_at_20).1 false))
    in Hclaim.
  assert (H2 : returned (pass next) = true) by (vm_compute; reflexivity).
  assert (H3 : returned (recycle (Z.to_nat (fillEnd next) - Z.to_nat (fillStart next))
                 (Z.to_nat (fillStart next)) (Z.to_nat (fillEnd next))
                 (Z.to_nat (fillStart next)) 4 (pass_entry next)) = false)
    by (vm_compute; reflexivity).
  congruence.
Qed.

(** C3, amended.  In every recycle pass the scan starts at slot 0 of
    [rowsWithNodes], whatever passes ran before: the pass ends with the
    cursor at some slot c, every slot below c held a row strictly inside
    the window and was kept or held another row and was taken, and no slot
    from c on is touched.  The cursor is a local variable of the handler,
    kept from one served row to the next within the pass only. *)
Theorem scan_restarts_at_slot_0 {Payload : Type} (st st' : State Payload) :
  isUpdating st = false ->
  lastMidNdx st <> Some (midNdx st) ->
  updateVisibleRows st = Done st' ->
  let fs := Z.to_nat (fillStart st) in
  let fe := Z.to_nat (fillEnd st) in
  exists c,
    (forall j, (j < c)%nat ->
       exists r, rowsWithNodes st !! j = Some r
         /\ ((strictly_inside fs fe r /\ rowsWithNodes st' !! j = Some r)
             \/ (~ strictly_inside fs fe r /\ rowsWithNodes st' !! j <> Some r)))
    /\ (forall j, (c <= j)%nat -> rowsWithNodes st' !! j = rowsWithNodes st !! j).
Proof.
  intros Hup Hlast Hdone fs fe.
  destruct (updateVisibleRows_cases st)
    as [[Hc _]|[(_ & Hfast & _)|[(_ & _ & st1 & c & Hpass & Hres)
       |(_ & _ & st1 & _ & Hres)]]]; [congruence|done| |congruence].
  rewrite Hdone in Hres. injection Hres as ->.
  destruct (recycle_slots _ _ _ _ _ _ _ _ Hpass) as (_ & Hsame & Hover).
  exists c. split.
  - intros j Hj. apply Hover. lia.
  - intros j Hj. apply Hsame. lia.
Qed.

Lemma scan_restarts_at_slot_0_witness :
  isUpdating four_nodes_at_40 = false
  /\ lastMidNdx four_nodes_at_40 <> Some (midNdx four_nodes_at_40)
  /\ updateVisibleRows four_nodes_at_40
     = Done (after_scroll 40 (after_scroll 20 (constructed 1000 4)))
  /\ exists c,
       (forall j, (j < c)%nat ->
          exists r, rowsWithNodes four_nodes_at_40 !! j = Some r
            /\ ((strictly_inside (Z.to_nat (fillStart four_nodes_at_40))
                                 (Z.to_nat (fillEnd four_nodes_at_40)) r
                 /\ rowsWithNodes (after_scroll 40 (after_scroll 20 (constructed 1000 4)))
                      !! j = Some r)
                \/ (~ strictly_inside (Z.to_nat (fillStart four_nodes_at_40))
                                      (Z.to_nat (fillEnd four_nodes_at_40)) r
                    /\ rowsWithNodes (after_scroll 40 (after_scroll 20 (constructed 1000 4)))
                         !! j <> Some r)))
       /\ (forall j, (c <= j)%nat ->
             rowsWithNodes (after_scroll 40 (after_scroll 20 (constructed 1000 4))) !! j
             = rowsWithNodes four_nodes_at_40 !! j).
Proof.
  assert (Hup : isUpdating four_nodes_at_40 = false) by (vm_compute; reflexivity).
  assert (Hlast : lastMidNdx four_nodes_at_40 <> Some (midNdx four_nodes_at_40))
    by (vm_compute; discriminate).
  assert (Hdone : updateVisibleRows four_nodes_at_40
                  = Done (after_scroll 40 (after_scroll 20 (constructed 1000 4))))
    by (vm_compute; reflexivity).
  split; [exact Hup|]. split; [exact Hlast|]. split; [exact Hdone|].
  exact (scan_restarts_at_slot_0 _ _ Hup Hlast Hdone).
Defined.

(** C2, which the code does not meet.  With 3 available nodes the window
    at scroll position 20 has the four rows 20 .. 23.  The pass serves the
    rows 20, 21 and 22; for row 23 the scan stands at slot 3, past the end
    of [rowsWithNodes], and the handler throws.  The guard stays set, and
    every later notification is dropped. *)
Theorem window_beyond_pool_throws :
  availableNodes three_nodes_at_20 = 3%Z
  /\ fillStart three_nodes_at_20 = 20%Z /\ fillEnd three_nodes_at_20 = 24%Z
  /\ rowsWithNodes three_nodes_at_20 = [0; 1; 2]%nat
  /\ updateVisibleRows three_nodes_at_20 = Throws (after_scroll 20 (constructed 1000 3))
  /\ rowsWithNodes (after_scroll 20 (constructed 1000 3)) = [20; 21; 22]%nat
  /\ scan 3 [20; 21; 22]%nat 20 24 3 = 3%nat
  /\ rowsWithNodes (after_scroll 20 (constructed 1000 3)) !! 3%nat = None
  /\ node_of (after_scroll 20 (constructed 1000 3)) 23 = None
  /\ isUpdating (after_scroll 20 (constructed 1000 3)) = true
  /\ forall y, updateVisibleRows (scrollTo y (after_scroll 20 (constructed 1000 3)))
               = Done (scrollTo y (after_scroll 20 (constructed 1000 3))).
Proof.
  do 10 (split; [by vm_compute|]).
  intros y. apply updateVisibleRows_dropped.
  rewrite isUpdating_scrollTo. by vm_compute.
Qed.

(** C4, which the code does not meet.  With 4 available nodes, after the
    passes at scroll positions 20 and 40 the rows 22 .. 25 hold the nodes.
    At 60 the window is 24 .. 28 and row 24, at its start, holds node 0.
    The pass serves row 26 with the node of row 24: the scan does not skip
    the row at [fillStart].  Row 24 is left without a node, and row 23,
    outside the window, keeps one. *)
Theorem window_row_loses_node :
  fillStart four_nodes_at_60 = 24%Z /\ fillEnd four_nodes_at_60 = 28%Z
  /\ rowsWithNodes four_nodes_at_60 = [24; 25; 22; 23]%nat
  /\ node_of four_nodes_at_60 24 = Some 0%nat
  /\ updateVisibleRows four_nodes_at_60
     = Done (outcome_state (updateVisibleRows four_nodes_at_60))
  /\ node_of (outcome_state (updateVisibleRows four_nodes_at_60)) 24 = None
  /\ node_of (outcome_state (updateVisibleRows four_nodes_at_60)) 26 = Some 0%nat
  /\ rowsWithNodes (outcome_state (updateVisibleRows four_nodes_at_60))
     = [26; 25; 27; 23]%nat
  /\ assigned (outcome_state (updateVisibleRows four_nodes_at_60))
     = [23; 25; 26; 27]%nat
  /\ drop 10 (calls (outcome_state (updateVisibleRows four_nodes_at_60)))
     = [UpdateRow 26 (Some 0%nat); UpdateRow 27 (Some 2%nat)].
Proof. do 9 (split; [by vm_compute|]). by vm_compute. Qed.

(** * Further properties of the code *)

Section Offsets.

Context {Payload : Type} (heightFn : Row Payload -> Q).

Lemma calculateHeights_loop_idempotent (rows : list (Row Payload)) total :
  calculateHeights_loop heightFn (calculateHeights_loop heightFn rows total).1 total
  = calculateHeights_loop heightFn rows total.
Proof.
  revert total. induction rows as [|r rs IH]; intros total; simpl; [done|].
  specialize (IH (total + heightFn (set_top r total))).
  destruct (calculateHeights_loop heightFn rs _) as [rs' t'] eqn:Hloop.
  simpl in *. change (set_top (set_top r total) total) with (set_top r total).
  by rewrite IH.
Qed.

(** X1.  [setHeight] is idempotent: running it again on the table it
    left recomputes the same offsets and total height and changes nothing.
    It never touches the assignment, the nodes or the call log, and it
    sets the container's height to [visibleHeight]. *)
Theorem setHeight_idempotent (st : State Payload) :
  setHeight heightFn (setHeight heightFn st) = setHeight heightFn st
  /\ rowsWithNodes (setHeight heightFn st) = rowsWithNodes st
  /\ __node <$> data (setHeight heightFn st) = __node <$> data st
  /\ heap (setHeight heightFn st) = heap st
  /\ calls (setHeight heightFn st) = calls st
  /\ style_height (el (setHeight heightFn st)) = Some (visibleHeight st).
Proof.
  split.
  - unfold setHeight at 1 2. unfold calculateHeights.
    destruct (calculateHeights_loop heightFn (data st) 0) as [d t] eqn:Hloop.
    cbn [data with_el with_totalHeight with_data].
    pose proof (calculateHeights_loop_idempotent (data st) 0) as Hidem.
    rewrite Hloop in Hidem. cbn [fst] in Hidem. rewrite Hidem.
    unfold setHeight, calculateHeights. rewrite Hloop. reflexivity.
  - unfold setHeight.
    destruct (calculateHeights heightFn (data st)) as [d t] eqn:Hcalc.
    cbn. repeat split; try done.
    apply list_eq. intros i. rewrite !list_lookup_fmap.
    assert (Hd : d = (calculateHeights heightFn (data st)).1) by (by rewrite Hcalc).
    destruct (d !! i) as [r'|] eqn:Hr'.
    + rewrite Hd in Hr'. apply calculateHeights_loop_lookup in Hr'
        as [_ (r & Hr & Heq)]. rewrite Hr, Heq. done.
    + apply lookup_ge_None in Hr'.
      rewrite Hd in Hr'. unfold calculateHeights in Hr'.
      rewrite calculateHeights_loop_length in Hr'.
      by rewrite lookup_ge_None_2.
Qed.

Lemma sum_heights_from_const (c start : Q) (rows : list (Row Payload)) :
  (forall r, heightFn r == c) ->
  sum_heights_from heightFn start rows
  == start + inject_Z (Z.of_nat (length rows)) * c.
Proof.
  intros Hc. revert start. induction rows as [|r rs IH]; intros start.
  - change (sum_heights_from heightFn start []) with start.
    change (inject_Z (Z.of_nat (length (@nil (Row Payload))))) with 0. lra.
  - change (sum_heights_from heightFn start (r :: rs))
      with (sum_heights_from heightFn (start + heightFn r) rs).
    rewrite IH, (Hc r). cbn [length]. rewrite Nat2Z.inj_succ.
    unfold Z.succ. rewrite inject_Z_plus. change (inject_Z 1) with 1. lra.
Qed.

(** X2.  With a constant height c (the default height function gives 10
    for every row) the offset of row i is i * c and the total height is the
    row count times c. *)
Theorem calculateHeights_constant (c : Q) (rows : list (Row Payload)) :
  (forall r, heightFn r == c) ->
  (forall i r', (calculateHeights heightFn rows).1 !! i = Some r' ->
     __top r' == inject_Z (Z.of_nat i) * c)
  /\ (calculateHeights heightFn rows).2
     == inject_Z (Z.of_nat (length rows)) * c.
Proof.
  intros Hc. split.
  - intros i r' Hr'. unfold calculateHeights in Hr'.
    pose proof (lookup_lt_Some _ _ _ Hr') as Hlt.
    apply calculateHeights_loop_lookup in Hr' as [-> _].
    rewrite sum_heights_from_const by done.
    rewrite length_take, Nat.min_l by lia. lra.
  - unfold calculateHeights. rewrite calculateHeights_loop_total.
    rewrite sum_heights_from_const by done.
    rewrite calculateHeights_loop_length. lra.
Qed.

End Offsets.

Lemma calculateHeights_constant_witness :
  (forall r : Row unit, height10 r == 10)
  /\ (calculateHeights height10 (replicate 7 (mkRow tt 0 None))).2
     == inject_Z (Z.of_nat (length (replicate 7 (mkRow tt 0 None)))) * 10.
Proof.
  assert (Hc : forall r : Row unit, height10 r == 10) by (intros r; reflexivity).
  split; [exact Hc|].
  exact (proj2 (calculateHeights_constant height10 10
                  (replicate 7 (mkRow tt 0 None)) Hc)).
Defined.

Section Window.

Context {Payload : Type} (heightFn : Row Payload -> Q).

Lemma sortedIndex_loop_between (array : list (Row Payload)) value fuel :
  forall low high, (low <= high)%nat ->
    (low <= sortedIndex_loop fuel array value low high <= high)%nat.
Proof.
  induction fuel as [|fuel IH]; intros low high Hle; cbn [sortedIndex_loop];
    [lia|].
  destruct (Nat.ltb_spec low high) as [Hlt|Hge]; [|lia].
  destruct (half_between low high Hlt) as [Hm1 Hm2].
  set (mid := ((low + high) / 2)%nat) in *. cbv zeta.
  destruct (match array !! mid with
            | Some r => Qltb (__top r) value
            | None => false
            end).
  - specialize (IH (S mid) high). lia.
  - specialize (IH low mid). lia.
Qed.

(** X3.  Whatever the offsets and the scroll position, sorted or not, the
    index the binary search returns is at most the row count and the
    window lies within the data: 0 <= fillStart and fillEnd <= row count.
    The window has at most availableNodes + 1 rows, and at most
    availableNodes rows when that number is even. *)
Theorem window_within_data (st : State Payload) :
  (midNdx st <= length (data st))%nat
  /\ (0 <= fillStart st)%Z
  /\ (fillEnd st <= Z.of_nat (length (data st)))%Z
  /\ (fillEnd st - fillStart st <= Z.max 0 (availableNodes st + 1))%Z
  /\ (Z.even (availableNodes st) = true ->
      fillEnd st - fillStart st <= Z.max 0 (availableNodes st))%Z.
Proof.
  assert (Hmid : (midNdx st <= length (data st))%nat).
  { unfold midNdx, sortedIndex.
    pose proof (sortedIndex_loop_between (data st) (screenMidpoint st)
                  (S (length (data st))) 0 (length (data st))). lia. }
  split; [done|]. unfold fillStart, fillEnd.
  assert (Hhalf : (2 * ceil_half (availableNodes st) <= availableNodes st + 1)%Z).
  { unfold ceil_half. pose proof (Z.div_mod (availableNodes st + 1) 2).
    pose proof (Z.mod_pos_bound (availableNodes st + 1) 2). lia. }
  split; [lia|]. split; [lia|]. split; [lia|].
  intros Heven. pose proof (ceil_half_even _ Heven). lia.
Qed.

Lemma lower_bound_mono (rows : list (Row Payload)) v1 v2 k1 k2 :
  lower_bound rows v1 k1 -> lower_bound rows v2 k2 -> v1 <= v2 ->
  (k1 <= k2)%nat.
Proof.
  intros (Hn1 & Hlo1 & _) (_ & _ & Hhi2) Hv.
  destruct (decide (k1 <= k2)%nat) as [|Hgt]; [done|].
  destruct (lookup_lt_is_Some_2 rows k2) as [r Hr]; [lia|].
  pose proof (Hlo1 k2 r ltac:(lia) Hr). pose proof (Hhi2 r Hr). lra.
Qed.

(** X4.  Over ascending offsets the window follows the scroll position:
    scrolling further down never moves [midNdx], [fillStart] or [fillEnd]
    up. *)
Theorem window_monotone (st : State Payload) (y1 y2 : Q) :
  ascending (data st) -> y1 <= y2 ->
  (midNdx (scrollTo y1 st) <= midNdx (scrollTo y2 st))%nat
  /\ (fillStart (scrollTo y1 st) <= fillStart (scrollTo y2 st))%Z
  /\ (fillEnd (scrollTo y1 st) <= fillEnd (scrollTo y2 st))%Z.
Proof.
  intros Hasc Hy.
  assert (Hmid : (midNdx (scrollTo y1 st) <= midNdx (scrollTo y2 st))%nat).
  { eapply lower_bound_mono.
    - apply (sortedIndex_lower_bound (data st) (screenMidpoint (scrollTo y1 st)) Hasc).
    - apply (sortedIndex_lower_bound (data st) (screenMidpoint (scrollTo y2 st)) Hasc).
    - unfold screenMidpoint. cbn [el scrollTo with_el scrollTop clientHeight].
      apply Qmult_le_compat_r; [lra|]. by vm_compute. }
  split; [done|]. unfold fillStart, fillEnd.
  change (data (scrollTo y1 st)) with (data st).
  change (data (scrollTo y2 st)) with (data st).
  change (availableNodes (scrollTo y1 st)) with (availableNodes st).
  change (availableNodes (scrollTo y2 st)) with (availableNodes st).
  lia.
Qed.

Lemma calculateHeights_ascending (rows : list (Row Payload)) :
  (forall r, 0 <= heightFn r) -> ascending (calculateHeights heightFn rows).1.
Proof.
  intros Hnn i j ri rj Hij Hi Hj. unfold calculateHeights in *.
  apply calculateHeights_loop_lookup in Hi as [-> _].
  apply calculateHeights_loop_lookup in Hj as [-> _].
  replace j with (i + (j - i))%nat by lia.
  rewrite <- take_take_drop, sum_heights_from_app.
  by apply sum_heights_from_le.
Qed.

Lemma ascending_tops (d d' : list (Row Payload)) :
  __top <$> d' = __top <$> d -> ascending d -> ascending d'.
Proof.
  intros Htops Hasc i j ri rj Hij Hi Hj.
  assert (Hi' : (__top <$> d) !! i = Some (__top ri)).
  { by rewrite <- Htops, list_lookup_fmap, Hi. }
  assert (Hj' : (__top <$> d) !! j = Some (__top rj)).
  { by rewrite <- Htops, list_lookup_fmap, Hj. }
  rewrite list_lookup_fmap in Hi', Hj'.
  destruct (d !! i) as [ri0|] eqn:Hri0; [|done].
  destruct (d !! j) as [rj0|] eqn:Hrj0; [|done].
  simpl in Hi', Hj'. injection Hi' as <-. injection Hj' as <-.
  by eapply (Hasc i j).
Qed.

Lemma reset_tops (st st' : State Payload) fuel :
  reset heightFn fuel st = Some st' ->
  __top <$> data st' = __top <$> (calculateHeights heightFn (data st)).1
  /\ payload <$> data st' = payload <$> data st.
Proof.
  intros Hreset.
  destruct (reset_Some_inv heightFn _ _ _ Hreset) as [Hempty Hfuel].
  destruct (reset_spec heightFn fuel st Hempty Hfuel)
    as (st'' & Hreset' & Hdata & _).
  rewrite Hreset in Hreset'. injection Hreset' as <-.
  split.
  - apply list_eq. intros i. rewrite !list_lookup_fmap, Hdata.
    by destruct (_ !! i).
  - apply list_eq. intros i. rewrite !list_lookup_fmap, Hdata.
    destruct ((calculateHeights heightFn (data st)).1 !! i) as [r'|] eqn:Hr'.
    + unfold calculateHeights in Hr'.
      apply calculateHeights_loop_lookup in Hr' as [_ (r & Hr & Heq)].
      rewrite Hr, Heq. done.
    + apply lookup_ge_None in Hr'. unfold calculateHeights in Hr'.
      rewrite calculateHeights_loop_length in Hr'.
      by rewrite lookup_ge_None_2.
Qed.

Lemma reachable_ascending (st : State Payload) :
  (forall r, 0 <= heightFn r) -> reachable heightFn st -> ascending (data st).
Proof.
  intros Hnn. induction 1 as [fuel st st' Hreset|y st _ IH|st _ IH].
  - apply reset_tops in Hreset as [Htops _].
    eapply ascending_tops; [exact Htops|]. by apply calculateHeights_ascending.
  - done.
  - destruct (updateVisibleRows_frame st) as (_ & Htops & _).
    by eapply ascending_tops.
Qed.

(** X5.  When no height is negative, in every state of a table in use
    the offsets are ascending, so the handler's [midNdx] is the first row
    whose offset is at least the viewport midpoint (the row count when
    there is none). *)
Theorem reachable_midNdx_exact (st : State Payload) :
  (forall r, 0 <= heightFn r) -> reachable heightFn st ->
  ascending (data st)
  /\ lower_bound (data st) (screenMidpoint st) (midNdx st).
Proof.
  intros Hnn Hreach.
  pose proof (reachable_ascending st Hnn Hreach) as Hasc.
  split; [done|]. by apply sortedIndex_lower_bound.
Qed.

End Window.

Lemma window_monotone_witness :
  ascending (data (constructed 30 4)) /\ 40 <= 60
  /\ (midNdx (scrollTo 40 (constructed 30 4))
      <= midNdx (scrollTo 60 (constructed 30 4)))%nat.
Proof.
  assert (Hasc : ascending (data (constructed 30 4))).
  { apply ascendingb_sound. vm_compute. reflexivity. }
  assert (Hle : 40 <= 60) by (by vm_compute).
  split; [exact Hasc|]. split; [exact Hle|].
  exact (proj1 (window_monotone (constructed 30 4) 40 60 Hasc Hle)).
Defined.

Lemma reachable_midNdx_exact_witness :
  (forall r : Row unit, 0 <= height10 r)
  /\ reachable height10 (scrollTo 40 (constructed 30 4))
  /\ ascending (data (scrollTo 40 (constructed 30 4))).
Proof.
  assert (Hnn : forall r : Row unit, 0 <= height10 r) by (intros r; by vm_compute).
  assert (Hreach : reachable height10 (scrollTo 40 (constructed 30 4))).
  { apply reachable_scrollTo.
    apply (reachable_reset height10 1 (fresh_table 30 4)).
    vm_compute. reflexivity. }
  split; [exact Hnn|]. split; [exact Hreach|].
  exact (proj1 (reachable_midNdx_exact height10 _ Hnn Hreach)).
Defined.

Section Handler.

Context {Payload : Type} (heightFn : Row Payload -> Q).

(** ** What scrolling never does *)

Lemma fmap_payload_alter_node (d : list (Row Payload)) i n :
  payload <$> alter (fun r => set_node r n) i d = payload <$> d.
Proof.
  apply list_eq. intros j. rewrite !list_lookup_fmap.
  destruct (decide (i = j)) as [->|Hne].
  - rewrite list_lookup_alter_eq. by destruct (d !! j).
  - by rewrite list_lookup_alter_ne.
Qed.

(** One iteration creates no node, keeps the payloads, and adds at most
    one call, of [updateRow]. *)
Lemma serve_row_no_build fs fe rowNdx c (st : State Payload) :
  match serve_row fs fe rowNdx c st with
  | Done (st', _) | Throws st' =>
      length (heap st') = length (heap st)
      /\ length (rowsWithNodes st') = length (rowsWithNodes st)
      /\ payload <$> data st' = payload <$> data st
      /\ exists new, calls st' = calls st ++ new
           /\ Forall (fun cl => is_build cl = false) new
  end.
Proof.
  unfold serve_row.
  assert (Hsame : length (heap st) = length (heap st)
      /\ length (rowsWithNodes st) = length (rowsWithNodes st)
      /\ payload <$> data st = payload <$> data st
      /\ exists new, calls st = calls st ++ new
           /\ Forall (fun cl => is_build cl = false) new).
  { repeat split. exists []. by rewrite app_nil_r. }
  destruct (data st !! rowNdx) as [row|]; [|done].
  destruct (__node row); [done|].
  destruct (rowsWithNodes st !! _) as [victim|]; [|done].
  destruct (data st !! victim) as [vrow|]; [|done].
  destruct (__node vrow) as [nd|]; cbn.
  - rewrite !length_insert, !fmap_payload_alter_node.
    repeat split. eexists. split; [reflexivity|]. by repeat constructor.
  - rewrite !fmap_payload_alter_node.
    repeat split. eexists. split; [reflexivity|]. by repeat constructor.
Qed.

Lemma recycle_no_build count fs fe : forall rowNdx c (st : State Payload),
  match recycle count fs fe rowNdx c st with
  | Done (st', _) | Throws st' =>
      length (heap st') = length (heap st)
      /\ length (rowsWithNodes st') = length (rowsWithNodes st)
      /\ payload <$> data st' = payload <$> data st
      /\ exists new, calls st' = calls st ++ new
           /\ Forall (fun cl => is_build cl = false) new
  end.
Proof.
  induction count as [|count IH]; intros rowNdx c st; simpl.
  { repeat split. exists []. by rewrite app_nil_r. }
  pose proof (serve_row_no_build fs fe rowNdx c st) as Hstep.
  destruct (serve_row fs fe rowNdx c st) as [[st1 c1]|st1]; [|done].
  destruct Hstep as (Hh1 & Hr1 & Hp1 & new1 & Hc1 & Hn1).
  specialize (IH (S rowNdx) c1 st1).
  destruct (recycle count fs fe (S rowNdx) c1 st1) as [[st2 c2]|st2];
    destruct IH as (Hh2 & Hr2 & Hp2 & new2 & Hc2 & Hn2);
    (split; [congruence|]; split; [congruence|]; split; [congruence|];
     exists (new1 ++ new2); split;
       [by rewrite Hc2, Hc1, app_assoc | by apply Forall_app]).
Qed.

(** X6.  A scroll notification, whether it returns or throws, never
    creates or discards a node and never touches the container: the
    number of nodes, the container with its children and listeners, the
    bottom element, the offsets, the total height, the payloads, the
    configured node count and the length of [rowsWithNodes] are as
    before; the call log only grows, and by [updateRow] calls only. *)
Theorem scroll_never_builds (st : State Payload) :
  let st' := outcome_state (updateVisibleRows st) in
  length (heap st') = length (heap st)
  /\ el st' = el st
  /\ bottomEl st' = bottomEl st
  /\ totalHeight st' = totalHeight st
  /\ __top <$> data st' = __top <$> data st
  /\ payload <$> data st' = payload <$> data st
  /\ availableNodes st' = availableNodes st
  /\ length (rowsWithNodes st') = length (rowsWithNodes st)
  /\ exists new, calls st' = calls st ++ new
       /\ Forall (fun cl => is_build cl = false) new.
Proof.
  intros st'. subst st'.
  assert (Hnil : exists new, calls st = calls st ++ new
                   /\ Forall (fun cl => is_build cl = false) new).
  { exists []. by rewrite app_nil_r. }
  pose proof (pass_frame st) as Hfr.
  pose proof (recycle_no_build
    (Z.to_nat (fillEnd st) - Z.to_nat (fillStart st))
    (Z.to_nat (fillStart st)) (Z.to_nat (fillEnd st))
    (Z.to_nat (fillStart st)) 0 (pass_entry st)) as Hnb.
  fold (pass st) in Hnb.
  destruct (updateVisibleRows_cases st)
    as [[_ ->]|[(_ & _ & ->)|[(_ & _ & st1 & c & Hp & ->)
       |(_ & _ & st1 & Hp & ->)]]]; cbn [outcome_state]; try done.
  - rewrite Hp in Hfr, Hnb.
    destruct Hfr as (_ & _ & He & Ha & Ht & Hb & Hth).
    destruct Hnb as (Hh & Hr & Hpl & Hcalls). done.
  - rewrite Hp in Hfr, Hnb.
    destruct Hfr as (_ & _ & He & Ha & Ht & Hb & Hth).
    destruct Hnb as (Hh & Hr & Hpl & Hcalls). done.
Qed.

(** ** The calls of a pass *)

Lemma recycle_calls count fs fe : forall rowNdx c (st st' : State Payload) c',
  recycle count fs fe rowNdx c st = Done (st', c') ->
  (fs <= rowNdx)%nat -> (rowNdx + count <= fe)%nat ->
  exists new, calls st' = calls st ++ new
    /\ updates new (filter (fun i => ~ is_Some (node_of st i)) (seq rowNdx count)).
Proof.
  induction count as [|count IH]; intros rowNdx c st st' c' Hrec Hfs Hfe;
    simpl in Hrec.
  { injection Hrec as <- <-. exists []. rewrite app_nil_r. split; [done|].
    constructor. }
  destruct (serve_row fs fe rowNdx c st) as [[st1 c1]|st1] eqn:Hserve; [|done].
  destruct (IH _ _ _ _ _ Hrec) as (new & Hcalls & Hnew); [lia|lia|].
  change (seq rowNdx (S count)) with (rowNdx :: seq (S rowNdx) count).
  apply serve_row_Done in Hserve
    as [(Hsome & -> & _)|(j & victim & nd & row & Hrow & Hnone & _ & _ & _ & _
                      & Hout & _ & _ & _ & Hnode & _ & Hcalls1 & _)].
  - exists new. split; [done|]. rewrite filter_cons_False; [done|]. tauto.
  - exists (UpdateRow rowNdx (Some nd) :: new). split.
    { rewrite Hcalls, Hcalls1, <- app_assoc. done. }
    rewrite filter_cons_True.
    2:{ unfold node_of. rewrite Hrow. simpl. rewrite Hnone. by intros [? ?]. }
    constructor; [by exists nd|].
    rewrite (filter_ext_elem_of _ (fun i => ~ is_Some (node_of st1 i))); [done|].
    intros i Hi%elem_of_seq. rewrite Hnode.
    rewrite decide_False, decide_False; [done|lia|].
    intros ->. apply Hout. split; lia.
Qed.

(** X7.  A pass that is not skipped and returns calls [updateRow] exactly
    once for each row of the window that lacked a node when the pass
    began, in increasing row order and each time with a node, and makes no
    other call. *)
Theorem pass_updates_lacking_rows (st st' : State Payload) :
  isUpdating st = false ->
  lastMidNdx st <> Some (midNdx st) ->
  updateVisibleRows st = Done st' ->
  exists new, calls st' = calls st ++ new /\ updates new (window_lacking st).
Proof.
  intros Hup Hlast Hdone.
  destruct (updateVisibleRows_cases st)
    as [[Hc _]|[(_ & Hfast & _)|[(_ & _ & st1 & c & Hpass & Hres)
       |(_ & _ & st1 & _ & Hres)]]]; [congruence|done| |congruence].
  rewrite Hdone in Hres. injection Hres as ->.
  unfold pass in Hpass. unfold window_lacking.
  set (fs := Z.to_nat (fillStart st)) in *. set (fe := Z.to_nat (fillEnd st)) in *.
  destruct (decide (fs <= fe)%nat) as [Hle|Hgt].
  - destruct (recycle_calls _ _ _ _ _ _ _ _ Hpass) as (new & Hcalls & Hnew);
      [lia|lia|].
    by exists new.
  - replace (fe - fs)%nat with 0%nat in * by lia. simpl in Hpass.
    injection Hpass as <- _. exists []. split; [by rewrite app_nil_r|constructor].
Qed.

(** ** Which rows a pass leaves alone *)

Lemma recycle_stable count fs fe : forall rowNdx c (st : State Payload),
  (fs <= rowNdx)%nat ->
  match recycle count fs fe rowNdx c st with
  | Done (st', _) | Throws st' =>
      (forall i nd, strictly_inside fs fe i ->
         node_of st i = Some nd -> node_of st' i = Some nd)
      /\ (forall i, (i < rowNdx \/ rowNdx + count <= i)%nat ->
            node_of st' i = None \/ node_of st' i = node_of st i)
  end.
Proof.
  induction count as [|count IH]; intros rowNdx c st Hfs; simpl.
  { split; [done|]. intros i _. by right. }
  destruct (serve_row fs fe rowNdx c st) as [[st1 c1]|st1] eqn:Hserve.
  - specialize (IH (S rowNdx) c1 st1 ltac:(lia)).
    assert (Hstep : (forall i nd, strictly_inside fs fe i ->
                       node_of st i = Some nd -> node_of st1 i = Some nd)
              /\ (forall i, i <> rowNdx ->
                    node_of st1 i = None \/ node_of st1 i = node_of st i)).
    { apply serve_row_Done in Hserve
        as [(_ & -> & _)|(j & victim & nd0 & row & Hrow & Hnone & _ & _ & _ & _
                          & Hout & _ & _ & _ & Hnode & _)].
      { split; [done|]. intros i _. by right. }
      split.
      - intros i nd Hin Hi. rewrite Hnode.
        rewrite decide_False by (by intros ->).
        rewrite decide_False; [done|]. intros ->.
        unfold node_of in Hi. rewrite Hrow in Hi. simpl in Hi. congruence.
      - intros i Hne. rewrite Hnode.
        destruct (decide (i = victim)); [by left|]. right.
        by rewrite decide_False. }
    destruct Hstep as [Hkeep1 Hout1].
    destruct (recycle count fs fe (S rowNdx) c1 st1) as [[st2 c2]|st2];
      destruct IH as [Hkeep2 Hout2].
    + split; [by eauto|]. intros i Hi.
      destruct (Hout2 i ltac:(lia)) as [-> | ->]; [by left|]. apply Hout1. lia.
    + split; [by eauto|]. intros i Hi.
      destruct (Hout2 i ltac:(lia)) as [-> | ->]; [by left|]. apply Hout1. lia.
  - apply serve_row_Throws in Hserve as (_ & Hnode & _).
    split.
    + intros i nd _. by rewrite Hnode.
    + intros i _. right. apply Hnode.
Qed.

(** X8.  Through a scroll notification, however it ends, a row strictly
    inside the window (fillStart < index < fillEnd) that holds a node
    keeps that very node, and a row outside the window never receives
    one: it keeps its node or loses it. *)
Theorem scroll_keeps_inner_rows (st : State Payload) :
  let st' := outcome_state (updateVisibleRows st) in
  (forall i nd, (fillStart st < Z.of_nat i < fillEnd st)%Z ->
     node_of st i = Some nd -> node_of st' i = Some nd)
  /\ (forall i, ~ (fillStart st <= Z.of_nat i < fillEnd st)%Z ->
        node_of st' i = None \/ node_of st' i = node_of st i).
Proof.
  intros st'. subst st'.
  pose proof (recycle_stable
    (Z.to_nat (fillEnd st) - Z.to_nat (fillStart st))
    (Z.to_nat (fillStart st)) (Z.to_nat (fillEnd st))
    (Z.to_nat (fillStart st)) 0 (pass_entry st) (le_n _)) as Hst.
  fold (pass st) in Hst.
  assert (Htriv : (forall i nd, (fillStart st < Z.of_nat i < fillEnd st)%Z ->
                     node_of st i = Some nd -> node_of st i = Some nd)
            /\ (forall i, ~ (fillStart st <= Z.of_nat i < fillEnd st)%Z ->
                  node_of st i = None \/ node_of st i = node_of st i)).
  { split; [done|]. intros i _. by right. }
  assert (Hconv : forall st1 : State Payload,
     ((forall i nd, strictly_inside (Z.to_nat (fillStart st)) (Z.to_nat (fillEnd st)) i ->
         node_of (pass_entry st) i = Some nd -> node_of st1 i = Some nd)
      /\ (forall i, (i < Z.to_nat (fillStart st)
                     \/ Z.to_nat (fillStart st)
                        + (Z.to_nat (fillEnd st) - Z.to_nat (fillStart st)) <= i)%nat ->
            node_of st1 i = None \/ node_of st1 i = node_of (pass_entry st) i)) ->
     (forall i nd, (fillStart st < Z.of_nat i < fillEnd st)%Z ->
        node_of st i = Some nd -> node_of st1 i = Some nd)
     /\ (forall i, ~ (fillStart st <= Z.of_nat i < fillEnd st)%Z ->
           node_of st1 i = None \/ node_of st1 i = node_of st i)).
  { intros st1 [Hkeep Hout]. split.
    - intros i nd Hi. apply Hkeep. unfold strictly_inside, fillStart in *. lia.
    - intros i Hi. apply Hout. unfold fillStart in *. lia. }
  destruct (updateVisibleRows_cases st)
    as [[_ ->]|[(_ & _ & ->)|[(_ & _ & st1 & c & Hp & ->)
       |(_ & _ & st1 & Hp & ->)]]]; cbn [outcome_state]; try done.
  - rewrite Hp in Hst. by apply (Hconv st1).
  - rewrite Hp in Hst. by apply Hconv.
Qed.

(** X9.  A notification that throws leaves the guard set, and from then on
    every scroll notification is dropped without any effect: the table no
    longer follows the scroll position. *)
Theorem throw_disables_scrolling (st st' : State Payload) :
  isUpdating st = false ->
  updateVisibleRows st = Throws st' ->
  isUpdating st' = true
  /\ lastMidNdx st' = Some (midNdx st)
  /\ forall y, updateVisibleRows (scrollTo y st') = Done (scrollTo y st').
Proof.
  intros Hup Hthrow.
  destruct (updateVisibleRows_guard st Hup) as [Hlast Hflag].
  rewrite Hthrow in Hlast, Hflag. simpl in Hlast.
  split; [done|]. split; [done|].
  intros y. by apply updateVisibleRows_dropped.
Qed.

(** ** Nodes sit at the offsets of their rows *)

Lemma position_Some (st : State Payload) i nd :
  node_of st i = Some nd -> position st i = heap st !! nd ≫= style_top.
Proof. intros Hnd. unfold position. by rewrite Hnd. Qed.

Lemma top_of_frame (st st' : State Payload) i :
  __top <$> data st' = __top <$> data st -> top_of st' i = top_of st i.
Proof. intros Htops. unfold top_of. by rewrite <- !list_lookup_fmap, Htops. Qed.

Lemma positioned_ext (st st' : State Payload) :
  (forall i, node_of st' i = node_of st i) -> heap st' = heap st ->
  same_frame st st' -> positioned st -> positioned st'.
Proof.
  intros Hnode Hheap (_ & _ & _ & _ & Htops & Hb & Hth) [Hpos Hbot]. split.
  - intros i Hi. rewrite (top_of_frame st st' i Htops).
    unfold position. rewrite Hnode, Hheap. apply Hpos. by rewrite <- Hnode.
  - intros b Hbe. rewrite Hb in Hbe. destruct (Hbot b Hbe) as [Hhb Hno].
    split; [by rewrite Hheap, Hth|]. intros i. rewrite Hnode. apply Hno.
Qed.

Lemma serve_row_Throws_heap fs fe rowNdx c (st st' : State Payload) :
  serve_row fs fe rowNdx c st = Throws st' -> heap st' = heap st.
Proof.
  unfold serve_row.
  destruct (data st !! rowNdx) as [row|]; [|by intros [= <-]].
  destruct (__node row); [done|].
  destruct (rowsWithNodes st !! _) as [victim|]; [|by intros [= <-]].
  destruct (data st !! victim) as [vrow|]; [|by intros [= <-]].
  destruct (__node vrow); [done|]. by intros [= <-].
Qed.

Lemma serve_row_positioned fs fe rowNdx c (st st' : State Payload) c' :
  consistent st -> positioned st ->
  serve_row fs fe rowNdx c st = Done (st', c') -> positioned st'.
Proof.
  intros (_ & _ & Hinj) [Hpos Hbot] Hserve.
  pose proof (serve_row_frame fs fe rowNdx c st) as Hfr. rewrite Hserve in Hfr.
  destruct Hfr as (_ & _ & _ & _ & Htops & Hb & Hth).
  apply serve_row_Done in Hserve
    as [(_ & -> & _)|(j & victim & nd & row & Hrow & Hnone & _ & _ & _ & _
                      & _ & Hne & Hvnode & _ & Hnode & Hheap & _)];
    [done|].
  assert (Hnd : (nd < length (heap st))%nat).
  { pose proof (Hpos victim ltac:(by rewrite Hvnode)) as Hv.
    rewrite (position_Some _ _ _ Hvnode) in Hv. unfold top_of in Hv.
    unfold node_of in Hvnode.
    destruct (data st !! victim) as [vrow|]; [|done]. simpl in Hv.
    destruct (heap st !! nd) as [n|] eqn:Hn; [|done].
    by eapply lookup_lt_Some. }
  split.
  - intros i [x Hx]. rewrite (top_of_frame st st' i Htops).
    rewrite (position_Some st' i x Hx), Hheap. rewrite Hnode in Hx.
    destruct (decide (i = victim)) as [->|Hiv]; [done|].
    destruct (decide (i = rowNdx)) as [->|Hir].
    + injection Hx as <-. rewrite list_lookup_insert_eq by done.
      unfold top_of. by rewrite Hrow.
    + rewrite list_lookup_insert_ne.
      * pose proof (Hpos i ltac:(by rewrite Hx)) as Hp.
        rewrite (position_Some st i x Hx) in Hp. exact Hp.
      * intros <-. apply Hiv. by eapply Hinj.
  - intros b Hbe. rewrite Hb in Hbe. destruct (Hbot b Hbe) as [Hhb Hno].
    split.
    + rewrite Hheap, Hth, list_lookup_insert_ne; [done|].
      intros ->. by apply (Hno victim).
    + intros i. rewrite Hnode.
      destruct (decide (i = victim)); [done|].
      destruct (decide (i = rowNdx)); [|apply Hno].
      intros [= ->]. by apply (Hno victim).
Qed.

Lemma recycle_positioned count fs fe : forall rowNdx c (st : State Payload),
  consistent st -> positioned st ->
  match recycle count fs fe rowNdx c st with
  | Done (st', _) | Throws st' => positioned st'
  end.
Proof.
  induction count as [|count IH]; intros rowNdx c st Hcons Hpos; simpl; [done|].
  pose proof (serve_row_frame fs fe rowNdx c st) as Hfr.
  destruct (serve_row fs fe rowNdx c st) as [[st1 c1]|st1] eqn:Hserve.
  - apply IH.
    + by destruct (serve_row_consistent _ _ _ _ _ _ _ Hcons Hserve).
    + by eapply serve_row_positioned.
  - pose proof (serve_row_Throws_heap _ _ _ _ _ _ Hserve) as Hheap.
    apply serve_row_Throws in Hserve as (_ & Hnode & _).
    by eapply positioned_ext.
Qed.

Lemma updateVisibleRows_positioned (st : State Payload) :
  consistent st -> positioned st ->
  positioned (outcome_state (updateVisibleRows st)).
Proof.
  intros Hcons Hpos.
  assert (Hentry : positioned (pass_entry st)) by done.
  pose proof (recycle_positioned
    (Z.to_nat (fillEnd st) - Z.to_nat (fillStart st))
    (Z.to_nat (fillStart st)) (Z.to_nat (fillEnd st))
    (Z.to_nat (fillStart st)) 0 (pass_entry st) Hcons Hentry) as Hpass.
  fold (pass st) in Hpass.
  destruct (updateVisibleRows_cases st)
    as [[_ ->]|[(_ & _ & ->)|[(_ & _ & st' & c & Hp & ->)
       |(_ & _ & st' & Hp & ->)]]]; cbn [outcome_state]; try done.
  - by rewrite Hp in Hpass.
  - by rewrite Hp in Hpass.
Qed.

Lemma reset_positioned (st st' : State Payload) fuel :
  reset heightFn fuel st = Some st' -> positioned st'.
Proof.
  intros Hreset.
  destruct (reset_Some_inv heightFn _ _ _ Hreset) as [Hempty Hfuel].
  destruct (reset_spec heightFn fuel st Hempty Hfuel)
    as (st'' & Hreset' & Hdata & _ & Hheap & _ & _ & Hbot & Htot & _).
  rewrite Hreset in Hreset'. injection Hreset' as <-.
  set (d := (calculateHeights heightFn (data st)).1) in *.
  set (t := (calculateHeights heightFn (data st)).2) in *.
  set (k := Z.to_nat _) in *.
  assert (Hlen : length d = length (data st)) by apply calculateHeights_loop_length.
  assert (Hk : (k <= length d)%nat) by (subst k; lia).
  split.
  - intros i [nd Hnd]. unfold position, top_of. rewrite Hnd. simpl.
    unfold node_of in Hnd. rewrite Hdata in *.
    destruct (d !! i) as [r|] eqn:Hr; [|done]. simpl in *.
    destruct (decide (i < k)%nat) as [Hik|Hik].
    2:{ by rewrite bool_decide_eq_false_2 in Hnd. }
    rewrite bool_decide_eq_true_2 in Hnd by done. injection Hnd as <-.
    rewrite Hheap, lookup_app_r by lia.
    replace (length (heap st) + i - length (heap st))%nat with i by lia.
    rewrite lookup_app_l by (rewrite length_fmap, length_take; lia).
    by rewrite list_lookup_fmap, lookup_take_lt, Hr.
  - intros b Hb. rewrite Hbot in Hb. injection Hb as <-. split.
    + rewrite Hheap, lookup_app_r by lia.
      rewrite lookup_app_r by (rewrite length_fmap, length_take; lia).
      rewrite length_fmap, length_take, Htot.
      replace (_ - _ - _)%nat with 0%nat by lia. done.
    + intros i. unfold node_of. rewrite Hdata.
      destruct (d !! i) as [r|]; [|done]. simpl.
      destruct (decide (i < k)%nat).
      * rewrite bool_decide_eq_true_2 by done. intros [= ?]. lia.
      * by rewrite bool_decide_eq_false_2.
Qed.

(** X10.  In every state of a table in use each row that holds a node has
    the node placed at the row's own offset, and the bottom element,
    which is never given to a row, is placed at the total height. *)
Theorem reachable_positioned (st : State Payload) :
  reachable heightFn st ->
  (forall i, is_Some (node_of st i) -> position st i = top_of st i)
  /\ (forall b, bottomEl st = Some b ->
        heap st !! b = Some (mkDomNode (Some (totalHeight st)))
        /\ forall i, node_of st i <> Some b).
Proof.
  intros Hreach. change (positioned st).
  induction Hreach as [fuel st st' Hreset|y st _ IH|st Hreach IH].
  - by eapply reset_positioned.
  - done.
  - apply updateVisibleRows_positioned; [|done].
    by destruct (reachable_consistent heightFn st Hreach).
Qed.

(** ** When a pass throws *)

Lemma recycle_throws fs fe count : forall rowNdx c (st : State Payload),
  consistent st ->
  (fs <= rowNdx)%nat -> (rowNdx + count <= fe)%nat ->
  (fe <= length (data st))%nat ->
  (free_slots fs fe (rowsWithNodes st) c < lacking st rowNdx count)%nat ->
  exists st', recycle count fs fe rowNdx c st = Throws st'.
Proof.
  induction count as [|count IH]; intros rowNdx c st Hcons Hfs Hfe Hlen Hfree.
  { unfold lacking in Hfree. simpl in Hfree. lia. }
  cbn [recycle].
  destruct (lookup_lt_is_Some_2 (data st) rowNdx) as [row Hrow]; [lia|].
  assert (Hseq : seq rowNdx (S count) = rowNdx :: seq (S rowNdx) count) by done.
  unfold lacking in Hfree. rewrite Hseq in Hfree.
  destruct (__node row) as [n0|] eqn:Hn0.
  - assert (Hserve : serve_row fs fe rowNdx c st = Done (st, c)).
    { unfold serve_row. by rewrite Hrow, Hn0. }
    rewrite Hserve. apply IH; [done|lia|lia|done|].
    rewrite filter_cons_False in Hfree; [done|].
    intros Hno. apply Hno. unfold node_of. rewrite Hrow. simpl. by rewrite Hn0.
  - rewrite filter_cons_True in Hfree.
    2:{ unfold node_of. rewrite Hrow. simpl. rewrite Hn0. by intros [? ?]. }
    simpl in Hfree.
    pose proof (free_slots_scan (length (rowsWithNodes st)) fs fe
                  (rowsWithNodes st) c) as Hscan.
    destruct (scan_spec (length (rowsWithNodes st)) (rowsWithNodes st) fs fe c)
      as (_ & _ & Hstop); [lia|].
    cbv zeta in Hscan. specialize (Hscan ltac:(lia)).
    destruct (rowsWithNodes st !!
                scan (length (rowsWithNodes st)) (rowsWithNodes st) fs fe c)
      as [victim|] eqn:Hvictim.
    + specialize (Hstop _ eq_refl).
      destruct Hcons as (Hnd & Hmem & Hinj).
      destruct (proj1 (Hmem victim)) as [nd Hvnd].
      { by eapply list_elem_of_lookup_2. }
      destruct (serve_row_steals fs fe rowNdx c st row victim nd Hrow Hn0
                  Hvictim Hvnd) as (st1 & Hserve & Hrwn1 & Hnode1 & Hlen1).
      rewrite Hserve.
      destruct (serve_row_consistent _ _ _ _ _ _ _ (conj Hnd (conj Hmem Hinj)) Hserve)
        as (Hcons1 & _ & _).
      apply IH; [done|lia|lia|lia|].
      rewrite Hrwn1. unfold free_slots at 1. rewrite drop_insert_lt by lia.
      unfold lacking.
      rewrite (filter_ext_elem_of (fun i => ~ is_Some (node_of st1 i))
                 (fun i => ~ is_Some (node_of st i))).
      { unfold free_slots in Hscan, Hfree. lia. }
      intros i Hi%elem_of_seq. rewrite Hnode1; [done| |lia].
      intros ->. apply Hstop. split; lia.
    + exists st. unfold serve_row. rewrite Hrow, Hn0, Hvictim. done.
Qed.

(** X11.  In a consistent state, a pass that is not skipped returns
    exactly when the rows of the window that lack a node are no more than
    the slots of [rowsWithNodes] whose row is not strictly inside the
    window; otherwise the scan runs off the end of [rowsWithNodes] and the
    handler throws. *)
Theorem pass_returns_iff (st : State Payload) :
  consistent st ->
  isUpdating st = false ->
  lastMidNdx st <> Some (midNdx st) ->
  returned (updateVisibleRows st) = true
  <-> (length (window_lacking st)
       <= free_slots (Z.to_nat (fillStart st)) (Z.to_nat (fillEnd st))
            (rowsWithNodes st) 0)%nat.
Proof.
  intros Hcons Hup Hlast.
  change (length (window_lacking st))
    with (lacking (pass_entry st) (Z.to_nat (fillStart st))
            (Z.to_nat (fillEnd st) - Z.to_nat (fillStart st))).
  change (rowsWithNodes st) with (rowsWithNodes (pass_entry st)).
  assert (Hret : returned (updateVisibleRows st) = returned (pass st)).
  { destruct (updateVisibleRows_cases st)
      as [[Hc _]|[(_ & Hfast & _)|[(_ & _ & st1 & c & Hpass & ->)
         |(_ & _ & st1 & Hpass & ->)]]]; [congruence|done| |];
      by rewrite Hpass. }
  rewrite Hret. unfold pass.
  set (fs := Z.to_nat (fillStart st)) in *. set (fe := Z.to_nat (fillEnd st)) in *.
  assert (Hfe : (fe <= length (data (pass_entry st)))%nat).
  { change (data (pass_entry st)) with (data st). subst fe. unfold fillEnd. lia. }
  destruct (decide (fs <= fe)%nat) as [Hle|Hgt].
  2:{ replace (fe - fs)%nat with 0%nat by lia. unfold lacking. simpl.
      split; [lia|done]. }
  destruct (decide (lacking (pass_entry st) fs (fe - fs)
                    <= free_slots fs fe (rowsWithNodes (pass_entry st)) 0)%nat)
    as [Hfit|Hover].
  - destruct (recycle_returns fs fe (fe - fs) fs 0 (pass_entry st))
      as (st' & c' & ->); [done|lia|lia|done|done|]. by cbn [returned].
  - destruct (recycle_throws fs fe (fe - fs) fs 0 (pass_entry st))
      as (st' & ->); [done|lia|lia|done|lia|].
    cbn [returned]. split; [done|]. intros Hfit. by destruct Hover.
Qed.

(** X12.  A table without rows: a scroll notification returns without any
    callback and without touching a node or the assignment. *)
Theorem empty_table_scroll (st : State Payload) :
  data st = [] ->
  exists st', updateVisibleRows st = Done st'
    /\ calls st' = calls st /\ heap st' = heap st
    /\ rowsWithNodes st' = rowsWithNodes st /\ data st' = [].
Proof.
  intros Hdata.
  assert (Hfe : Z.to_nat (fillEnd st) = 0%nat).
  { unfold fillEnd. rewrite Hdata. simpl. lia. }
  destruct (updateVisibleRows_cases st)
    as [[_ ->]|[(_ & _ & ->)|[(_ & _ & st1 & c & Hpass & ->)
       |(_ & _ & st1 & Hpass & _)]]]; eauto 10.
  - unfold pass in Hpass. rewrite Hfe in Hpass. simpl in Hpass.
    injection Hpass as <- _. eexists. split; [done|]. by repeat split.
  - unfold pass in Hpass. rewrite Hfe in Hpass. simpl in Hpass. done.
Qed.

End Handler.

Section Lifecycle.

Context {Payload : Type} (heightFn : Row Payload -> Q).

Lemma build_loop_keeps count : forall ndx (st : State Payload),
  isUpdating (build_loop count ndx st) = isUpdating st
  /\ lastMidNdx (build_loop count ndx st) = lastMidNdx st
  /\ visibleHeight (build_loop count ndx st) = visibleHeight st
  /\ yPosition (build_loop count ndx st) = yPosition st
  /\ style_height (el (build_loop count ndx st)) = style_height (el st).
Proof.
  induction count as [|count IH]; intros ndx st; simpl; [done|].
  destruct (IH (S ndx) (build_one ndx st)) as (-> & -> & -> & -> & ->).
  unfold build_one. by destruct (data st !! ndx).
Qed.

(** X13.  [reset] returns exactly when it starts on an empty container:
    then it returns for any fuel, and otherwise the loop of line 58 never
    ends.  As it leaves the bottom element in the container, a [reset]
    that follows a completed [reset] never returns. *)
Theorem reset_returns_iff_empty (st : State Payload) :
  (children (el st) = [] ->
   forall fuel, (0 < fuel)%nat -> is_Some (reset heightFn fuel st))
  /\ (children (el st) <> [] -> forall fuel, reset heightFn fuel st = None)
  /\ (forall fuel st', reset heightFn fuel st = Some st' ->
        children (el st') <> []
        /\ forall fuel', reset heightFn fuel' st' = None).
Proof.
  split; [|split].
  - intros Hempty fuel Hfuel.
    destruct (reset_spec heightFn fuel st Hempty Hfuel) as (st' & -> & _). by eexists.
  - intros Hne fuel. by apply reset_needs_empty_container.
  - intros fuel st' Hreset. split.
    + by eapply reset_children.
    + by eapply reset_after_reset.
Qed.

(** X14.  [reset] rebuilds the rows' nodes but clears neither the guard
    nor the remembered [midNdx]; it sets [yPosition] to 0 and the
    container's height to [visibleHeight] and keeps the payloads.  So
    when the first notification after a [reset] resolves to the [midNdx]
    remembered from before, it is skipped and the fresh nodes stay on the
    first rows. *)
Theorem reset_keeps_guard (st st' : State Payload) fuel :
  reset heightFn fuel st = Some st' ->
  isUpdating st' = isUpdating st
  /\ lastMidNdx st' = lastMidNdx st
  /\ yPosition st' = 0
  /\ visibleHeight st' = visibleHeight st
  /\ style_height (el st') = Some (visibleHeight st)
  /\ payload <$> data st' = payload <$> data st
  /\ (isUpdating st = false ->
      forall y, lastMidNdx st = Some (midNdx (scrollTo y st')) ->
        updateVisibleRows (scrollTo y st') = Done (scrollTo y st')).
Proof.
  intros Hreset.
  pose proof (reset_tops heightFn st st' fuel Hreset) as [_ Hpay].
  assert (Hkeep : isUpdating st' = isUpdating st
                  /\ lastMidNdx st' = lastMidNdx st
                  /\ yPosition st' = 0
                  /\ visibleHeight st' = visibleHeight st
                  /\ style_height (el st') = Some (visibleHeight st)).
  { destruct (reset_Some_inv heightFn _ _ _ Hreset) as [Hempty Hfuel].
    unfold reset in Hreset.
    assert (Hsh : isUpdating (setHeight heightFn (with_yPosition st 0)) = isUpdating st
              /\ lastMidNdx (setHeight heightFn (with_yPosition st 0)) = lastMidNdx st
              /\ yPosition (setHeight heightFn (with_yPosition st 0)) = 0
              /\ visibleHeight (setHeight heightFn (with_yPosition st 0)) = visibleHeight st
              /\ style_height (el (setHeight heightFn (with_yPosition st 0)))
                 = Some (visibleHeight st)
              /\ children (el (setHeight heightFn (with_yPosition st 0))) = children (el st)).
    { unfold setHeight. by destruct (calculateHeights heightFn _). }
    destruct Hsh as (Hu & Hl & Hy & Hv & Hs & Hch).
    set (s1 := setHeight heightFn (with_yPosition st 0)) in *.
    rewrite (clear_loop_empty fuel (el s1)) in Hreset by (by rewrite ?Hch).
    injection Hreset as <-.
    unfold add_bottomEl. cbn.
    match goal with
    | |- context [build_loop ?k 0 ?s] =>
        destruct (build_loop_keeps k 0%nat s) as (-> & -> & -> & -> & ->)
    end.
    cbn. by rewrite Hu, Hl, Hy, Hv, Hs. }
  destruct Hkeep as (Hu & Hl & Hy & Hv & Hs).
  do 6 (split; [done|]).
  intros Hup y Hlast.
  destruct (updateVisibleRows_cases (scrollTo y st'))
    as [[_ ->]|[(_ & _ & ->)|[(_ & Hne & _)|(_ & Hne & _)]]]; try done.
  - exfalso. apply Hne. rewrite <- Hlast. exact Hl.
  - exfalso. apply Hne. rewrite <- Hlast. exact Hl.
Qed.

Lemma omap_ext_Some {A B} (f : A -> option B) (g : A -> B) (l : list A) :
  (forall x, x ∈ l -> f x = Some (g x)) -> omap f l = g <$> l.
Proof.
  induction l as [|a l IH]; intros Hf; [done|]. cbn.
  rewrite (Hf a) by left. cbn. f_equal. apply IH. intros x Hx. apply Hf. by right.
Qed.

(** X15.  After [reset] the children of the container are the nodes of
    the rows listed in [rowsWithNodes], in that order, followed by the
    bottom element, and one more scroll listener is registered than
    before. *)
Theorem reset_container (st st' : State Payload) fuel :
  reset heightFn fuel st = Some st' ->
  children (el st')
    = omap (node_of st') (rowsWithNodes st') ++ option_list (bottomEl st')
  /\ scrollListeners (el st') = S (scrollListeners (el st))
  /\ length (heap st') = (length (heap st) + length (rowsWithNodes st') + 1)%nat.
Proof.
  intros Hreset.
  destruct (reset_Some_inv heightFn _ _ _ Hreset) as [Hempty Hfuel].
  destruct (reset_spec heightFn fuel st Hempty Hfuel)
    as (st'' & Hreset' & Hdata & Hrwn & Hheap & _ & Hch & Hbot & _ & Hsl & _).
  rewrite Hreset in Hreset'. injection Hreset' as <-.
  set (d := (calculateHeights heightFn (data st)).1) in *.
  set (k := Z.to_nat _) in *.
  assert (Hlen : length d = length (data st)) by apply calculateHeights_loop_length.
  assert (Hk : (k <= length d)%nat) by (subst k; lia).
  split; [|split; [done|]].
  - rewrite Hch, Hrwn, Hbot. cbn [option_list]. f_equal.
    rewrite (omap_ext_Some _ (Nat.add (length (heap st)))).
    + by rewrite fmap_add_seq, Nat.add_0_r.
    + intros i [_ Hi]%elem_of_seq. unfold node_of. rewrite Hdata.
      destruct (lookup_lt_is_Some_2 d i) as [r ->]; [lia|]. simpl.
      by rewrite bool_decide_eq_true_2 by lia.
  - rewrite Hheap, Hrwn, !length_app, length_fmap, length_take, length_seq.
    simpl. lia.
Qed.

End Lifecycle.

(** X16.  The constructor throws when a required option is missing,
    naming the first missing one in the order [el], [data], [buildRow],
    [updateRow], before anything is built.  With the four of them and an
    empty container it returns a table in use, with 100 available nodes,
    a visible height of 400 and height 10 for every row unless the options
    say otherwise: the guard is clear, no [midNdx] is remembered, the rows
    0 .. min(availableNodes, row count) - 1 hold the nodes, and with the
    default height row i has offset 10 * i and the total height is 10
    times the row count. *)
Theorem ScrollableTable_constructs {Payload : Type} (fuel : nat)
    (opts : Options Payload) :
  (opts_el opts = None -> ScrollableTable fuel opts = NeedToPass OptEl)
  /\ (is_Some (opts_el opts) -> opts_data opts = None ->
      ScrollableTable fuel opts = NeedToPass OptData)
  /\ (is_Some (opts_el opts) -> is_Some (opts_data opts) ->
      opts_buildRow opts = false ->
      ScrollableTable fuel opts = NeedToPass OptBuildRow)
  /\ (is_Some (opts_el opts) -> is_Some (opts_data opts) ->
      opts_buildRow opts = true -> opts_updateRow opts = false ->
      ScrollableTable fuel opts = NeedToPass OptUpdateRow)
  /\ (forall e d, opts_el opts = Some e -> opts_data opts = Some d ->
      opts_buildRow opts = true -> opts_updateRow opts = true ->
      children e = [] -> (0 < fuel)%nat ->
      exists st,
        ScrollableTable fuel opts
          = Table (default default_heightFn (opts_heightFn opts)) st
        /\ reachable (default default_heightFn (opts_heightFn opts)) st
        /\ availableNodes st = default 100%Z (opts_availableNodes opts)
        /\ visibleHeight st = default 400 (opts_visibleHeight opts)
        /\ isUpdating st = false /\ lastMidNdx st = None
        /\ rowsWithNodes st
           = seq 0 (Z.to_nat (Z.min (availableNodes st) (Z.of_nat (length d))))
        /\ length (data st) = length d
        /\ (opts_heightFn opts = None ->
            (forall i r, data st !! i = Some r ->
               __top r == inject_Z (Z.of_nat i) * 10)
            /\ totalHeight st == inject_Z (Z.of_nat (length d)) * 10)).
Proof.
  unfold ScrollableTable. split; [|split; [|split; [|split]]].
  - by intros ->.
  - by intros [e ->] ->.
  - by intros [e ->] [d ->] ->.
  - by intros [e ->] [d ->] -> ->.
  - intros e d -> -> -> -> Hempty Hfuel. cbn [negb].
    set (hf := default default_heightFn (opts_heightFn opts)).
    destruct (reset_spec hf fuel (extended e d opts) Hempty Hfuel)
      as (st & Hreset & Hdata & Hrwn & _ & _ & _ & _ & Htot & _ & Hav).
    rewrite Hreset. exists st. split; [done|].
    split; [by eapply reachable_reset|].
    destruct (reset_keeps_guard hf _ _ _ Hreset) as (Hu & Hl & _ & Hv & _).
    destruct (reset_tops hf _ _ _ Hreset) as [Htops _].
    change (data (extended e d opts)) with d in *.
    change (availableNodes (extended e d opts))
      with (default 100%Z (opts_availableNodes opts)) in *.
    change (visibleHeight (extended e d opts))
      with (default 400 (opts_visibleHeight opts)) in *.
    change (isUpdating (extended e d opts)) with false in *.
    change (lastMidNdx (extended e d opts)) with (@None nat) in *.
    assert (Hlen : length (data st) = length d).
    { rewrite <- (length_fmap __top), Htops, length_fmap.
      apply calculateHeights_loop_length. }
    split; [by rewrite Hav|]. split; [by rewrite Hv|].
    split; [by rewrite Hu|]. split; [by rewrite Hl|].
    split; [by rewrite Hrwn, Hav|]. split; [done|].
    intros Hdef.
    assert (Hc : forall r, hf r == 10).
    { intros r. subst hf. rewrite Hdef. reflexivity. }
    destruct (calculateHeights_constant hf 10 d Hc) as [Hoff Htotal].
    split.
    + intros i r Hr.
      assert (Hi : (__top <$> (calculateHeights hf d).1) !! i = Some (__top r)).
      { by rewrite <- Htops, list_lookup_fmap, Hr. }
      rewrite list_lookup_fmap in Hi.
      destruct ((calculateHeights hf d).1 !! i) as [r'|] eqn:Hr'; [|done].
      injection Hi as <-. by apply Hoff.
    + rewrite Htot. exact Htotal.
Qed.

(** ** Instances on the scenarios *)

Lemma window_within_data_witness :
  Z.even (availableNodes scenarioA_at_5000) = true
  /\ (fillEnd scenarioA_at_5000 - fillStart scenarioA_at_5000
      <= Z.max 0 (availableNodes scenarioA_at_5000))%Z.
Proof.
  assert (Heven : Z.even (availableNodes scenarioA_at_5000) = true)
    by (vm_compute; reflexivity).
  split; [exact Heven|].
  exact (proj2 (proj2 (proj2 (proj2 (window_within_data scenarioA_at_5000)))) Heven).
Defined.

Lemma pass_updates_lacking_rows_witness :
  isUpdating four_nodes_at_40 = false
  /\ lastMidNdx four_nodes_at_40 <> Some (midNdx four_nodes_at_40)
  /\ updateVisibleRows four_nodes_at_40
     = Done (after_scroll 40 (after_scroll 20 (constructed 1000 4)))
  /\ exists new,
       calls (after_scroll 40 (after_scroll 20 (constructed 1000 4)))
       = calls four_nodes_at_40 ++ new
       /\ updates new (window_lacking four_nodes_at_40).
Proof.
  assert (Hup : isUpdating four_nodes_at_40 = false) by (vm_compute; reflexivity).
  assert (Hlast : lastMidNdx four_nodes_at_40 <> Some (midNdx four_nodes_at_40))
    by (vm_compute; discriminate).
  assert (Hdone : updateVisibleRows four_nodes_at_40
                  = Done (after_scroll 40 (after_scroll 20 (constructed 1000 4))))
    by (vm_compute; reflexivity).
  split; [exact Hup|]. split; [exact Hlast|]. split; [exact Hdone|].
  exact (pass_updates_lacking_rows _ _ Hup Hlast Hdone).
Defined.

Lemma scroll_keeps_inner_rows_witness :
  (fillStart four_nodes_at_60 < Z.of_nat 25 < fillEnd four_nodes_at_60)%Z
  /\ node_of four_nodes_at_60 25 = Some 1%nat
  /\ node_of (outcome_state (updateVisibleRows four_nodes_at_60)) 25 = Some 1%nat.
Proof.
  assert (Hin : (fillStart four_nodes_at_60 < Z.of_nat 25 < fillEnd four_nodes_at_60)%Z)
    by (vm_compute; split; reflexivity).
  assert (Hnode : node_of four_nodes_at_60 25 = Some 1%nat)
    by (vm_compute; reflexivity).
  split; [exact Hin|]. split; [exact Hnode|].
  pose proof (scroll_keeps_inner_rows four_nodes_at_60) as Hkeep.
  cbv zeta in Hkeep. exact (proj1 Hkeep 25%nat 1%nat Hin Hnode).
Defined.

Lemma throw_disables_scrolling_witness :
  isUpdating three_nodes_at_20 = false
  /\ updateVisibleRows three_nodes_at_20 = Throws (after_scroll 20 (constructed 1000 3))
  /\ isUpdating (after_scroll 20 (constructed 1000 3)) = true.
Proof.
  assert (Hup : isUpdating three_nodes_at_20 = false) by (vm_compute; reflexivity).
  assert (Hthrow : updateVisibleRows three_nodes_at_20
                   = Throws (after_scroll 20 (constructed 1000 3)))
    by (vm_compute; reflexivity).
  split; [exact Hup|]. split; [exact Hthrow|].
  exact (proj1 (throw_disables_scrolling _ _ Hup Hthrow)).
Defined.

Lemma reachable_positioned_witness :
  reachable height10 four_nodes_at_40
  /\ forall i, is_Some (node_of four_nodes_at_40 i) ->
       position four_nodes_at_40 i = top_of four_nodes_at_40 i.
Proof.
  assert (Hreach : reachable height10 four_nodes_at_40).
  { apply reachable_scrollTo. apply reachable_handler. apply reachable_scrollTo.
    apply (reachable_reset height10 1 (fresh_table 1000 4)).
    vm_compute. reflexivity. }
  split; [exact Hreach|].
  exact (proj1 (reachable_positioned height10 four_nodes_at_40 Hreach)).
Defined.

Lemma pass_returns_iff_witness :
  consistent three_nodes_at_20
  /\ isUpdating three_nodes_at_20 = false
  /\ lastMidNdx three_nodes_at_20 <> Some (midNdx three_nodes_at_20)
  /\ (returned (updateVisibleRows three_nodes_at_20) = true
      <-> (length (window_lacking three_nodes_at_20)
           <= free_slots (Z.to_nat (fillStart three_nodes_at_20))
                (Z.to_nat (fillEnd three_nodes_at_20))
                (rowsWithNodes three_nodes_at_20) 0)%nat).
Proof.
  assert (Hcons : consistent three_nodes_at_20).
  { apply (reachable_consistent height10). apply reachable_scrollTo.
    apply (reachable_reset height10 1 (fresh_table 1000 3)).
    vm_compute. reflexivity. }
  assert (Hup : isUpdating three_nodes_at_20 = false) by (vm_compute; reflexivity).
  assert (Hlast : lastMidNdx three_nodes_at_20 <> Some (midNdx three_nodes_at_20))
    by (vm_compute; discriminate).
  split; [exact Hcons|]. split; [exact Hup|]. split; [exact Hlast|].
  exact (pass_returns_iff three_nodes_at_20 Hcons Hup Hlast).
Defined.

Lemma empty_table_scroll_witness :
  data (scrollTo 0 (constructed 0 100)) = []
  /\ exists st', updateVisibleRows (scrollTo 0 (constructed 0 100)) = Done st'
       /\ calls st' = calls (scrollTo 0 (constructed 0 100))
       /\ heap st' = heap (scrollTo 0 (constructed 0 100))
       /\ rowsWithNodes st' = rowsWithNodes (scrollTo 0 (constructed 0 100))
       /\ data st' = [].
Proof.
  assert (Hdata : data (scrollTo 0 (constructed 0 100)) = [])
    by (vm_compute; reflexivity).
  split; [exact Hdata|].
  exact (empty_table_scroll (scrollTo 0 (constructed 0 100)) Hdata).
Defined.

Lemma reset_returns_iff_empty_witness :
  children (el (fresh_table 3 5)) = [] /\ (0 < 1)%nat
  /\ is_Some (reset height10 1 (fresh_table 3 5)).
Proof.
  assert (Hempty : children (el (fresh_table 3 5)) = []) by reflexivity.
  assert (Hfuel : (0 < 1)%nat) by lia.
  split; [exact Hempty|]. split; [exact Hfuel|].
  exact (proj1 (reset_returns_iff_empty height10 (fresh_table 3 5)) Hempty 1%nat Hfuel).
Defined.

Lemma reset_keeps_guard_witness :
  reset height10 1 (fresh_table 3 5) = Some (constructed 3 5)
  /\ isUpdating (constructed 3 5) = isUpdating (fresh_table 3 5)
  /\ lastMidNdx (constructed 3 5) = lastMidNdx (fresh_table 3 5).
Proof.
  assert (Hreset : reset height10 1 (fresh_table 3 5) = Some (constructed 3 5))
    by (vm_compute; reflexivity).
  split; [exact Hreset|].
  pose proof (reset_keeps_guard height10 _ _ _ Hreset) as (Hu & Hl & _).
  split; [exact Hu|exact Hl].
Defined.

Lemma reset_container_witness :
  reset height10 1 (fresh_table 3 5) = Some (constructed 3 5)
  /\ children (el (constructed 3 5))
     = omap (node_of (constructed 3 5)) (rowsWithNodes (constructed 3 5))
       ++ option_list (bottomEl (constructed 3 5)).
Proof.
  assert (Hreset : reset height10 1 (fresh_table 3 5) = Some (constructed 3 5))
    by (vm_compute; reflexivity).
  split; [exact Hreset|].
  exact (proj1 (reset_container height10 _ _ _ Hreset)).
Defined.

Lemma ScrollableTable_constructs_witness :
  exists st,
    ScrollableTable 1
      (mkOptions (Some (mkElement [] 0 400 None true 0))
         (Some (replicate 3 (mkRow tt 0 None))) true true None None None)
    = Table default_heightFn st
    /\ availableNodes st = 100%Z
    /\ rowsWithNodes st = [0; 1; 2]%nat.
Proof.
  destruct (proj2 (proj2 (proj2 (proj2
      (ScrollableTable_constructs 1
         (mkOptions (Some (mkElement [] 0 400 None true 0))
            (Some (replicate 3 (mkRow tt 0 None))) true true None None None)))))
      (mkElement [] 0 400 None true 0) (replicate 3 (mkRow tt 0 None))
      eq_refl eq_refl eq_refl eq_refl eq_refl (le_n 1))
    as (st & Hc & _ & Hav & _ & _ & _ & Hrwn & _).
  exists st. split; [exact Hc|]. split; [exact Hav|].
  rewrite Hrwn, Hav. reflexivity.
Defined.
